(** * libIntegrate: [_1D::SimpsonRule<T, NN>]

    A shallow embedding of [src/libIntegrate/_1D/SimpsonRule.hpp] and the
    properties of its four call operators:

    - [simpson_f]     : [operator()(F f, T a, T b, std::size_t N)]
    - [simpson_fixed] : [operator()(F f, T a, T b)] (N fixed by the template)
    - [simpson_xy]    : [operator()(const X &x, const Y &y)]
    - [simpson_y]     : [operator()(const Y &y, T dx = 1)]

    Modelling choices.

    - The scalar type [T] is the field of rationals in canonical form
      ([Qc]): arithmetic is exact, equality is Leibniz equality and every
      definition computes.  Division is the total division of [Qc]
      (anything divided by zero is zero), where the code divides by zero
      and returns no number; the definitions are the code only where no
      divisor is zero, and every statement about a result carries the
      hypotheses that make its divisors differ from zero (distinct
      abscissas, a step that is not zero, [N >= 1]).  Operation D is also
      given with its divisions checked ([simpson_y_checked]).
    - [std::size_t] values are integers in [0, 2^64) and the operators
      [-] and [+=] on them wrap around.  A container has a size of this
      type ([SizeT.fits]).
    - A container is a list; [c[i]] is defined for [i < c.size()] only.  An
      access outside the container has no defined behaviour in C++ and
      stops the computation with [OutOfRange].  Every access that is
      performed is recorded, in order, in a trace.
    - Operands are evaluated left to right (C++ leaves the order open; the
      value does not depend on it since reads have no effect).
    - A callable [f] is a function on [T].  The count [N] of Operation A
      and the template parameter [NN] are natural numbers. *)

From Stdlib Require Import ZArith QArith Qcanon List Lia Bool Field.
Import ListNotations.

Local Open Scope Qc_scope.

(* ================================================================= *)
(** ** Scalars *)

Abbreviation T := Qc (only parsing).

(** Conversion of an integer literal ([2], [4], [6], [3.]) to [T]. *)
Definition lit (z : Z) : T := Q2Qc (inject_Z z).

(** Conversion of a [std::size_t] count to [T], as in [(b - a) / N]. *)
Definition of_count (n : nat) : T := lit (Z.of_nat n).

(* ================================================================= *)
(** ** [std::size_t] arithmetic *)

Module SizeT.

Definition bits : Z := 64.
Definition modulus : Z := 2 ^ bits.

Definition wrap (z : Z) : Z := z mod modulus.
Definition add (a b : Z) : Z := wrap (a + b).
Definition sub (a b : Z) : Z := wrap (a - b).

(** A container size that the type can hold. *)
Definition fits (n : nat) : Prop := (Z.of_nat n < modulus)%Z.

End SizeT.

(* ================================================================= *)
(** ** Container accesses: an error monad that logs reads *)

Inductive container : Set := CX | CY.

(** [Rd c i] is one evaluation of [c[i]]. *)
Inductive access : Set := Rd (c : container) (i : Z).

Inductive outcome (A : Type) : Type :=
| Done (a : A) (trace : list access)
| OutOfRange
| OutOfFuel.

Arguments Done {A} a trace.
Arguments OutOfRange {A}.
Arguments OutOfFuel {A}.

Definition ret {A} (a : A) : outcome A := Done a [].

Definition bind {A B} (m : outcome A) (k : A -> outcome B) : outcome B :=
  match m with
  | Done a tr =>
      match k a with
      | Done b tr' => Done b (tr ++ tr')
      | OutOfRange => OutOfRange
      | OutOfFuel => OutOfFuel
      end
  | OutOfRange => OutOfRange
  | OutOfFuel => OutOfFuel
  end.

Declare Scope comp_scope.
Delimit Scope comp_scope with comp.
Notation "v <- m ;; k" := (bind m (fun v => k))
  (at level 61, m at next level, right associativity) : comp_scope.

(** The value a computation returns, if it returns. *)
Definition value {A} (m : outcome A) : option A :=
  match m with Done a _ => Some a | _ => None end.

(** The accesses a computation performed, if it returns. *)
Definition accesses {A} (m : outcome A) : list access :=
  match m with Done _ tr => tr | _ => [] end.

Definition size (c : list T) : Z := Z.of_nat (length c).

(** [c[i]] for an index [i] of type [std::size_t]. *)
Definition read (id : container) (c : list T) (i : Z) : outcome T :=
  if ((0 <=? i) && (i <? size c))%Z then
    match nth_error c (Z.to_nat i) with
    | Some v => Done v [Rd id i]
    | None => OutOfRange
    end
  else OutOfRange.

(** Binary operators on sub-expressions that may read a container. *)
Definition lift2 (op : T -> T -> T) (m1 m2 : outcome T) : outcome T :=
  (a <- m1 ;; b <- m2 ;; ret (op a b))%comp.

Declare Scope expr_scope.
Delimit Scope expr_scope with expr.
Notation "a + b" := (lift2 Qcplus a b) : expr_scope.
Notation "a - b" := (lift2 Qcminus a b) : expr_scope.
Notation "a * b" := (lift2 Qcmult a b) : expr_scope.
Notation "a / b" := (lift2 Qcdiv a b) : expr_scope.

(** A literal, and a local variable or argument, inside an expression. *)
Definition const (z : Z) : outcome T := ret (lit z).
Definition var (v : T) : outcome T := ret v.

(* ================================================================= *)
(** ** The integrator *)

(** [T LagrangePolynomial(T x, T A, T B, T C)] *)
Definition LagrangePolynomial (x A B C : T) : T :=
  (x - A) * (x - B) / (C - A) / (C - B).

(** A call of [LagrangePolynomial] whose arguments may read a container. *)
Definition call_Lagrange (mx mA mB mC : outcome T) : outcome T :=
  (x <- mx ;; A <- mA ;; B <- mB ;; C <- mC ;;
   ret (LagrangePolynomial x A B C))%comp.

Section NonUniform.

Variables x y : list T.

Notation "'x[' i ]" := (read CX x i) (at level 0, i at level 200).
Notation "'y[' i ]" := (read CY y i) (at level 0, i at level 200).
Notation "i +! k" := (SizeT.add i k) (at level 50, left associativity).

(** Body of the loop of [operator()(const X &x, const Y &y)]. *)
Definition triple_xy (i : Z) (sum : T) : outcome T :=
  (m <- ((x[i] + x[i +! 2]) / const 2)%expr ;;
   ym <- (y[i] * call_Lagrange (var m) x[i +! 1] x[i +! 2] x[i]
          + y[i +! 1] * call_Lagrange (var m) x[i] x[i +! 2] x[i +! 1]
          + y[i +! 2] * call_Lagrange (var m) x[i] x[i +! 1] x[i +! 2]
         )%expr ;;
   t <- ((x[i +! 2] - x[i]) / const 6
         * (y[i] + const 4 * var ym + y[i +! 2]))%expr ;;
   ret (sum + t))%comp.

(** [for (i = 0; i < x.size() - 2; i += 2)], entered at [i] with [sum]. *)
Fixpoint loop_xy (fuel : nat) (i : Z) (sum : T) : outcome T :=
  if (i <? SizeT.sub (size x) 2)%Z then
    match fuel with
    | O => OutOfFuel
    | S fuel' =>
        (sum' <- triple_xy i sum ;; loop_xy fuel' (i +! 2) sum')%comp
    end
  else ret sum.

(** The block guarded by [x.size() % 2 == 0] and [x.size() > 2]. *)
Definition tail_xy (sum : T) : outcome T :=
  let i := SizeT.sub (size x) 3 in
  (m <- ((x[i +! 1] + x[i +! 2]) / const 2)%expr ;;
   ym <- (y[i] * call_Lagrange (var m) x[i +! 1] x[i +! 2] x[i]
          + y[i +! 1] * call_Lagrange (var m) x[i] x[i +! 2] x[i +! 1]
          + y[i +! 2] * call_Lagrange (var m) x[i] x[i +! 1] x[i +! 2]
         )%expr ;;
   t <- ((x[i +! 2] - x[i +! 1]) / const 6
         * (y[i +! 1] + const 4 * var ym + y[i +! 2]))%expr ;;
   ret (sum + t))%comp.

(** [operator()(const X &x, const Y &y)] *)
Definition simpson_xy : outcome T :=
  (sum <- loop_xy (S (length x)) 0 0 ;;
   if (size x mod 2 =? 0)%Z then
     if (2 <? size x)%Z then tail_xy sum else ret sum
   else ret sum)%comp.

End NonUniform.

Section Uniform.

Variable y : list T.
Variable dx : T.

Notation "'y[' i ]" := (read CY y i) (at level 0, i at level 200).
Notation "i +! k" := (SizeT.add i k) (at level 50, left associativity).

(** Body of the loop of [operator()(const Y &y, T dx)]. *)
Definition triple_y (i : Z) (sum : T) : outcome T :=
  (t <- (y[i] + const 4 * y[i +! 1] + y[i +! 2])%expr ;;
   ret (sum + t))%comp.

(** [for (i = 0; i < y.size() - 2; i += 2)], entered at [i] with [sum]. *)
Fixpoint loop_y (fuel : nat) (i : Z) (sum : T) : outcome T :=
  if (i <? SizeT.sub (size y) 2)%Z then
    match fuel with
    | O => OutOfFuel
    | S fuel' =>
        (sum' <- triple_y i sum ;; loop_y fuel' (i +! 2) sum')%comp
    end
  else ret sum.

(** The block guarded by [y.size() % 2 == 0]. *)
Definition tail_y (sum : T) : outcome T :=
  let i := SizeT.sub (size y) 3 in
  (ym <- (y[i] * var (LagrangePolynomial (lit 3 * dx / lit 2)
                     dx (lit 2 * dx) 0)%Qc
          + y[i +! 1] * var (LagrangePolynomial (lit 3 * dx / lit 2)
                            0 (lit 2 * dx) dx)%Qc
          + y[i +! 2] * var (LagrangePolynomial (lit 3 * dx / lit 2)
                            0 dx (lit 2 * dx))%Qc)%expr ;;
   t <- (var (dx / lit 6)%Qc
         * (y[i +! 1] + const 4 * var ym + y[i +! 2]))%expr ;;
   ret (sum + t))%comp.

(** [operator()(const Y &y, T dx = 1)] *)
Definition simpson_y : outcome T :=
  (sum <- loop_y (S (length y)) 0 0 ;;
   let sum := sum * (dx / lit 3) in
   if (size y mod 2 =? 0)%Z then tail_y sum else ret sum)%comp.

End Uniform.

(** The default argument [dx = 1]. *)
Definition simpson_y_default (y : list T) : outcome T := simpson_y y 1.

(* ================================================================= *)
(** ** Operation D with its divisions checked

    Division in [Qc] is total, and the definitions above are the code
    wherever no divisor is zero.  The run below evaluates the same lines
    of [operator()(const Y &y, T dx)] with every division checked: a
    divisor that is zero stops it with [DividesByZero]. *)

Inductive checked (A : Type) : Type :=
| Returns (a : A) (trace : list access)
| ReadsOutside
| NoFuelLeft
| DividesByZero.

Arguments Returns {A} a trace.
Arguments ReadsOutside {A}.
Arguments NoFuelLeft {A}.
Arguments DividesByZero {A}.

(** A computation that divides nowhere. *)
Definition check {A} (m : outcome A) : checked A :=
  match m with
  | Done a tr => Returns a tr
  | OutOfRange => ReadsOutside
  | OutOfFuel => NoFuelLeft
  end.

Definition checked_ret {A} (a : A) : checked A := Returns a [].

Definition checked_bind {A B} (m : checked A) (k : A -> checked B)
  : checked B :=
  match m with
  | Returns a tr =>
      match k a with
      | Returns b tr' => Returns b (tr ++ tr')
      | ReadsOutside => ReadsOutside
      | NoFuelLeft => NoFuelLeft
      | DividesByZero => DividesByZero
      end
  | ReadsOutside => ReadsOutside
  | NoFuelLeft => NoFuelLeft
  | DividesByZero => DividesByZero
  end.

Declare Scope checked_scope.
Delimit Scope checked_scope with checked.
Notation "v <- m ;; k" := (checked_bind m (fun v => k))
  (at level 61, m at next level, right associativity) : checked_scope.

Definition checked_value {A} (m : checked A) : option A :=
  match m with Returns a _ => Some a | _ => None end.

Definition is_zero (d : T) : bool :=
  match d ?= 0 with Eq => true | _ => false end.

(** [a / b] *)
Definition checked_div (a b : T) : checked T :=
  if is_zero b then DividesByZero else checked_ret (a / b).

(** [(x - A) * (x - B) / (C - A) / (C - B)] *)
Definition LagrangePolynomial_checked (x A B C : T) : checked T :=
  (q <- checked_div ((x - A) * (x - B)) (C - A) ;;
   checked_div q (C - B))%checked.

(** The block guarded by [y.size() % 2 == 0]. *)
Definition tail_y_checked (y : list T) (dx sum : T) : checked T :=
  let i := SizeT.sub (size y) 3 in
  (y0 <- check (read CY y i) ;;
   t0 <- checked_div (lit 3 * dx) (lit 2) ;;
   w0 <- LagrangePolynomial_checked t0 dx (lit 2 * dx) 0 ;;
   y1 <- check (read CY y (SizeT.add i 1)) ;;
   t1 <- checked_div (lit 3 * dx) (lit 2) ;;
   w1 <- LagrangePolynomial_checked t1 0 (lit 2 * dx) dx ;;
   y2 <- check (read CY y (SizeT.add i 2)) ;;
   t2 <- checked_div (lit 3 * dx) (lit 2) ;;
   w2 <- LagrangePolynomial_checked t2 0 dx (lit 2 * dx) ;;
   let ym := y0 * w0 + y1 * w1 + y2 * w2 in
   h <- checked_div dx (lit 6) ;;
   a <- check (read CY y (SizeT.add i 1)) ;;
   b <- check (read CY y (SizeT.add i 2)) ;;
   checked_ret (sum + h * (a + lit 4 * ym + b)))%checked.

(** [operator()(const Y &y, T dx = 1)]; its loop divides nowhere. *)
Definition simpson_y_checked (y : list T) (dx : T) : checked T :=
  (sum <- check (loop_y y (S (length y)) 0 0) ;;
   third <- checked_div dx (lit 3) ;;
   let sum := sum * third in
   if (size y mod 2 =? 0)%Z then tail_y_checked y dx sum
   else checked_ret sum)%checked.

(** The default argument [dx = 1]. *)
Definition simpson_y_default_checked (y : list T) : checked T :=
  simpson_y_checked y 1.

(** [for (std::size_t i = 0; i < N; i++, x += dx)] with [n = N - i]
    iterations left, entered with the running [x] and [sum]. *)
Fixpoint loop_f (f : T -> T) (dx : T) (n : nat) (x sum : T) : T :=
  match n with
  | O => sum
  | S n' =>
      loop_f f dx n' (x + dx)
        (sum + (f x + lit 4 * f (x + dx / lit 2) + f (x + dx)))
  end.

(** [operator()(F f, T a, T b, std::size_t N)], enabled when [NN == 0]. *)
Definition simpson_f (f : T -> T) (a b : T) (N : nat) : T :=
  let dx := (b - a) / of_count N in
  loop_f f dx N a 0 * (dx / lit 6).

(** The loop of [operator()(F f, T a, T b)], which counts up to the
    template parameter [NN]. *)
Fixpoint loop_fixed (f : T -> T) (dx : T) (n : nat) (x sum : T) : T :=
  match n with
  | O => sum
  | S n' =>
      loop_fixed f dx n' (x + dx)
        (sum + (f x + lit 4 * f (x + dx / lit 2) + f (x + dx)))
  end.

(** [operator()(F f, T a, T b)] of [SimpsonRule<T, NN>], enabled when
    [NN > 0]. *)
Definition simpson_fixed (NN : nat) (f : T -> T) (a b : T) : T :=
  let dx := (b - a) / of_count NN in
  loop_fixed f dx NN a 0 * (dx / lit 6).

(* ================================================================= *)
(** ** Reference definitions, written from the specification *)

(** The value of [c[i]] for an index inside the container. *)
Definition at_ (c : list T) (i : nat) : T := nth i c 0.

(** The sum of [g i] over the indices [i] of [l]. *)
Definition sum_over (l : list nat) (g : nat -> T) : T :=
  fold_right (fun i acc => g i + acc) 0 l.

(** The indices [i = 0, 2, 4, ...] with [i < n - 2]. *)
Definition triple_starts (n : nat) : list nat :=
  filter Nat.even (seq 0 (n - 2)).

(** The Lagrange form of the quadratic through [(x0,y0)], [(x1,y1)] and
    [(x2,y2)], at [t]: each ordinate is weighted by the product of [t]
    minus the other two abscissas over the product of its own abscissa
    minus the other two. *)
Definition lagrange3 (x0 y0 x1 y1 x2 y2 t : T) : T :=
  y0 * ((t - x1) * (t - x2) / ((x0 - x1) * (x0 - x2)))
  + y1 * ((t - x0) * (t - x2) / ((x1 - x0) * (x1 - x2)))
  + y2 * ((t - x0) * (t - x1) / ((x2 - x0) * (x2 - x1))).

(** [p] is a polynomial function of degree at most two. *)
Definition is_quadratic (p : T -> T) : Prop :=
  exists c0 c1 c2, forall t, p t = c0 + c1 * t + c2 * t * t.

(** [p] is a quadratic through the three points. *)
Definition quadratic_through (x0 y0 x1 y1 x2 y2 : T) (p : T -> T) : Prop :=
  is_quadratic p /\ p x0 = y0 /\ p x1 = y1 /\ p x2 = y2.

(** [p] is the only quadratic through the three points. *)
Definition unique_quadratic_through
    (x0 y0 x1 y1 x2 y2 : T) (p : T -> T) : Prop :=
  quadratic_through x0 y0 x1 y1 x2 y2 p /\
  forall q, quadratic_through x0 y0 x1 y1 x2 y2 q -> forall t, q t = p t.

(** Strict order on scalars, as a test. *)
Definition ltb (a b : T) : bool :=
  match a ?= b with Lt => true | _ => false end.

(** Every element is related to the next one. *)
Fixpoint chain (r : T -> T -> bool) (l : list T) : bool :=
  match l with
  | a :: (b :: _) as tl => r a b && chain r tl
  | _ => true
  end.

(** Strictly increasing or strictly decreasing. *)
Definition strictly_monotonic (l : list T) : bool :=
  chain ltb l || chain (fun a b => ltb b a) l.

Section NonUniformSpec.

Variables x y : list T.

(** Contribution of the triple that starts at [i]. *)
Definition spec_triple_xy (i : nat) : T :=
  let m := (at_ x i + at_ x (i + 2)) / lit 2 in
  let ym := lagrange3 (at_ x i) (at_ y i)
                      (at_ x (i + 1)) (at_ y (i + 1))
                      (at_ x (i + 2)) (at_ y (i + 2)) m in
  (at_ x (i + 2) - at_ x i) / lit 6
  * (at_ y i + lit 4 * ym + at_ y (i + 2)).

(** Contribution of the last pair of points of [n] samples. *)
Definition spec_tail_xy (n : nat) : T :=
  let m := (at_ x (n - 2) + at_ x (n - 1)) / lit 2 in
  let ym := lagrange3 (at_ x (n - 3)) (at_ y (n - 3))
                      (at_ x (n - 2)) (at_ y (n - 2))
                      (at_ x (n - 1)) (at_ y (n - 1)) m in
  (at_ x (n - 1) - at_ x (n - 2)) / lit 6
  * (at_ y (n - 2) + lit 4 * ym + at_ y (n - 1)).

Definition spec_simpson_xy : T :=
  let n := length x in
  sum_over (triple_starts n) spec_triple_xy
  + (if Nat.even n && (2 <? n)%nat then spec_tail_xy n else 0).

End NonUniformSpec.

Section UniformSpec.

Variable y : list T.
Variable dx : T.

Definition spec_triple_y (i : nat) : T :=
  at_ y i + lit 4 * at_ y (i + 1) + at_ y (i + 2).

Definition spec_tail_y (n : nat) : T :=
  let ym := lagrange3 0 (at_ y (n - 3))
                      dx (at_ y (n - 2))
                      (lit 2 * dx) (at_ y (n - 1))
                      (lit 3 * dx / lit 2) in
  dx / lit 6 * (at_ y (n - 2) + lit 4 * ym + at_ y (n - 1)).

Definition spec_simpson_y : T :=
  let n := length y in
  dx / lit 3 * sum_over (triple_starts n) spec_triple_y
  + (if Nat.even n then spec_tail_y n else 0).

End UniformSpec.

(** A container of integer-valued samples. *)
Definition samples (l : list Z) : list T := map lit l.

(** The abscissas [x0, x0 + dx, x0 + 2 dx, ...] of [n] samples. *)
Definition uniform_grid (x0 dx : T) (n : nat) : list T :=
  map (fun i => x0 + of_count i * dx) (seq 0 n).

(** What one sub-interval that starts at [x] adds to the sum of
    Operation A. *)
Definition simpson_term (f : T -> T) (dx x : T) : T :=
  f x + lit 4 * f (x + dx / lit 2) + f (x + dx).

(** Operation A as the specification words it. *)
Definition spec_simpson_f (f : T -> T) (a b : T) (N : nat) : T :=
  let dx := (b - a) / of_count N in
  dx / lit 6
  * sum_over (seq 0 N)
      (fun i => let xi := a + of_count i * dx in
                f xi + lit 4 * f (xi + dx / lit 2) + f (xi + dx)).

(** Polynomials as coefficient lists, constant term first. *)
Fixpoint eval_poly (p : list T) (t : T) : T :=
  match p with
  | [] => 0
  | c :: p' => c + t * eval_poly p' t
  end.

(** Coefficients of the antiderivative, from the term of degree [k]. *)
Fixpoint integrate_from (k : nat) (p : list T) : list T :=
  match p with
  | [] => []
  | c :: p' => c / of_count (S k) :: integrate_from (S k) p'
  end.

(** The antiderivative that vanishes at zero. *)
Definition antiderivative (p : list T) : list T := 0 :: integrate_from 0 p.

(** Coefficients of the derivative, from the term of degree [k]. *)
Fixpoint derive_from (k : nat) (p : list T) : list T :=
  match p with
  | [] => []
  | c :: p' => of_count k * c :: derive_from (S k) p'
  end.

Definition derivative (p : list T) : list T :=
  match p with
  | [] => []
  | _ :: p' => derive_from 1 p'
  end.

(** The definite integral of the polynomial [p] over [[a, b]]. *)
Definition integral (p : list T) (a b : T) : T :=
  eval_poly (antiderivative p) b - eval_poly (antiderivative p) a.

(* ================================================================= *)
(** ** Sampled functions *)

(** The ordinates [f(x[0]), f(x[1]), ...] of [f] on the abscissas [x]. *)
Definition sample_at (f : T -> T) (x : list T) : list T := map f x.

(** The samples of [f] at [a, a + h, ..., a + 2 N h]: the end points and
    the midpoints of [N] sub-intervals of width [2 h]. *)
Definition half_step_samples (f : T -> T) (a h : T) (N : nat) : list T :=
  sample_at f (uniform_grid a h (2 * N + 1)).

(** Where the triples that start at [0, 2, 4, ...] below [m] end. *)
Definition triples_end (m : nat) : nat := if Nat.even m then m else S m.

(** The abscissas moved by [s]. *)
Definition shifted (s : T) (x : list T) : list T := map (fun v => v + s) x.

(* ================================================================= *)
(** ** Scalars: literals and field reasoning *)

Lemma lit_0 : lit 0 = 0.
Proof. apply Qc_is_canon. reflexivity. Qed.

Lemma lit_1 : lit 1 = 1.
Proof. apply Qc_is_canon. reflexivity. Qed.

Lemma lit_add (a b : Z) : lit (a + b) = lit a + lit b.
Proof.
  unfold lit, Qcplus. apply Q2Qc_eq_iff.
  change (this (Q2Qc (inject_Z a))) with (Qred (inject_Z a)).
  change (this (Q2Qc (inject_Z b))) with (Qred (inject_Z b)).
  rewrite !Qred_correct, inject_Z_plus. reflexivity.
Qed.

Lemma lit_2 : lit 2 = 1 + 1.
Proof. now rewrite <- lit_1, <- lit_add. Qed.

Lemma lit_3 : lit 3 = 1 + 1 + 1.
Proof. now rewrite <- lit_1, <- !lit_add. Qed.

Lemma lit_4 : lit 4 = (1 + 1) * (1 + 1).
Proof. apply Qc_is_canon. reflexivity. Qed.

Lemma lit_6 : lit 6 = (1 + 1) * (1 + 1 + 1).
Proof. apply Qc_is_canon. reflexivity. Qed.

Lemma lit_nonzero (z : Z) : z <> 0%Z -> lit z <> 0.
Proof.
  intros Hz H. apply Hz.
  unfold lit in H. apply Q2Qc_eq_iff in H.
  unfold Qeq in H. simpl in H. lia.
Qed.

Lemma of_count_S (n : nat) : of_count (S n) = of_count n + 1.
Proof.
  unfold of_count. rewrite Nat2Z.inj_succ, <- Z.add_1_r, lit_add, lit_1.
  reflexivity.
Qed.

Lemma of_count_0 : of_count 0 = 0.
Proof. apply lit_0. Qed.

Lemma of_count_nonzero (n : nat) : (1 <= n)%nat -> of_count n <> 0.
Proof. intros H. apply lit_nonzero. lia. Qed.

(** Closed numerals are not zero. *)
Ltac numeral_nonzero :=
  match goal with
  | |- Qcmake _ _ <> _ =>
      let H := fresh in
      intro H; apply (f_equal this) in H; vm_compute in H; discriminate H
  end.

(** Write the literals with [1] and [+], where [ring] and [field] read
    them as constants. *)
Ltac literals :=
  rewrite ?lit_6, ?lit_4, ?lit_3, ?lit_2, ?lit_1, ?lit_0.

Lemma sub_nonzero (a b : T) : a <> b -> a - b <> 0.
Proof.
  intros Hab H. apply Hab.
  replace a with (a - b + b) by ring. rewrite H. ring.
Qed.

(** Side conditions left by [field]. *)
Ltac nonzero :=
  repeat split;
  first [ assumption
        | apply sub_nonzero; solve [ assumption | apply not_eq_sym; assumption ]
        | numeral_nonzero ].

Lemma div_div (a b c : T) : a / b / c = a / (b * c).
Proof. unfold Qcdiv. rewrite Qcinv_mult_distr. ring. Qed.

Lemma LagrangePolynomial_quotient (x A B C : T) :
  LagrangePolynomial x A B C = (x - A) * (x - B) / ((C - A) * (C - B)).
Proof. unfold LagrangePolynomial. apply div_div. Qed.

(** The three weighted calls of the source add up to the Lagrange form. *)
Lemma weighted_calls (x0 y0 x1 y1 x2 y2 t : T) :
  y0 * LagrangePolynomial t x1 x2 x0
  + y1 * LagrangePolynomial t x0 x2 x1
  + y2 * LagrangePolynomial t x0 x1 x2
  = lagrange3 x0 y0 x1 y1 x2 y2 t.
Proof. rewrite !LagrangePolynomial_quotient. reflexivity. Qed.

(* ================================================================= *)
(** ** The access monad *)

Lemma value_bind {A B} (m : outcome A) (k : A -> outcome B) :
  value (bind m k) = match value m with
                     | Some a => value (k a)
                     | None => None
                     end.
Proof. destruct m; simpl; auto. destruct (k a); reflexivity. Qed.

Lemma value_lift2 (op : T -> T -> T) (m1 m2 : outcome T) (a b : T) :
  value m1 = Some a -> value m2 = Some b ->
  value (lift2 op m1 m2) = Some (op a b).
Proof.
  intros H1 H2. unfold lift2. rewrite value_bind, H1, value_bind, H2.
  reflexivity.
Qed.

Lemma value_call_Lagrange (mx mA mB mC : outcome T) (x A B C : T) :
  value mx = Some x -> value mA = Some A ->
  value mB = Some B -> value mC = Some C ->
  value (call_Lagrange mx mA mB mC) = Some (LagrangePolynomial x A B C).
Proof.
  intros Hx HA HB HC. unfold call_Lagrange.
  rewrite value_bind, Hx, value_bind, HA, value_bind, HB, value_bind, HC.
  reflexivity.
Qed.

Lemma value_const (z : Z) : value (const z) = Some (lit z).
Proof. reflexivity. Qed.

Lemma value_var (v : T) : value (var v) = Some v.
Proof. reflexivity. Qed.

Lemma value_read (id : container) (c : list T) (i : nat) :
  (i < length c)%nat -> value (read id c (Z.of_nat i)) = Some (at_ c i).
Proof.
  intros Hi. unfold read, size, at_.
  destruct (Z.leb_spec 0 (Z.of_nat i)) as [_|Hneg]; [|lia].
  destruct (Z.ltb_spec (Z.of_nat i) (Z.of_nat (length c))) as [_|Hge];
    [|lia].
  cbn [andb]. rewrite Nat2Z.id.
  destruct (nth_error c i) as [v|] eqn:E.
  - simpl. f_equal. symmetry. now apply nth_error_nth.
  - apply nth_error_None in E. lia.
Qed.

Lemma read_outside (id : container) (c : list T) (i : Z) :
  (size c <= i)%Z -> read id c i = OutOfRange.
Proof.
  intros Hi. unfold read.
  destruct (Z.ltb_spec i (size c)); [lia|].
  rewrite andb_false_r. reflexivity.
Qed.

(* ================================================================= *)
(** ** [std::size_t] arithmetic without wrap-around *)

Lemma modulus_value : SizeT.modulus = 18446744073709551616%Z.
Proof. reflexivity. Qed.

Lemma add_no_wrap (i k : nat) :
  SizeT.fits (i + k) ->
  SizeT.add (Z.of_nat i) (Z.of_nat k) = Z.of_nat (i + k).
Proof.
  unfold SizeT.fits, SizeT.add, SizeT.wrap. intros H.
  rewrite <- Nat2Z.inj_add. apply Z.mod_small. lia.
Qed.

Lemma sub_no_wrap (n k : nat) :
  (k <= n)%nat -> SizeT.fits n ->
  SizeT.sub (Z.of_nat n) (Z.of_nat k) = Z.of_nat (n - k).
Proof.
  unfold SizeT.fits, SizeT.sub, SizeT.wrap. intros Hk H.
  rewrite <- Nat2Z.inj_sub by assumption. apply Z.mod_small. lia.
Qed.

Lemma fits_le (m n : nat) : (m <= n)%nat -> SizeT.fits n -> SizeT.fits m.
Proof. unfold SizeT.fits. lia. Qed.

(* ================================================================= *)
(** ** The loop bodies and the tails *)

(** Evaluate the reads and operators of an expression of the source. *)
Ltac eval_expr :=
  repeat first
    [ apply value_const
    | apply value_var
    | apply value_read; lia
    | eapply value_lift2
    | eapply value_call_Lagrange ].

Lemma triple_xy_value (x y : list T) (i : nat) (sum : T) :
  length x = length y -> SizeT.fits (length x) ->
  (i + 2 < length x)%nat ->
  value (triple_xy x y (Z.of_nat i) sum) = Some (sum + spec_triple_xy x y i).
Proof.
  intros Hlen Hfit Hi. unfold triple_xy.
  change 1%Z with (Z.of_nat 1). change 2%Z with (Z.of_nat 2).
  rewrite !add_no_wrap by (eapply fits_le; [|exact Hfit]; lia).
  rewrite value_bind.
  erewrite value_lift2; [| eval_expr ..].
  rewrite value_bind.
  erewrite value_lift2; [| eval_expr ..].
  rewrite value_bind.
  erewrite value_lift2; [| eval_expr ..].
  simpl. unfold spec_triple_xy. rewrite weighted_calls. reflexivity.
Qed.

Lemma tail_xy_value (x y : list T) (sum : T) :
  length x = length y -> SizeT.fits (length x) ->
  (3 <= length x)%nat ->
  value (tail_xy x y sum) = Some (sum + spec_tail_xy x y (length x)).
Proof.
  intros Hlen Hfit Hn. unfold tail_xy, size.
  change 1%Z with (Z.of_nat 1). change 2%Z with (Z.of_nat 2).
  change 3%Z with (Z.of_nat 3).
  rewrite sub_no_wrap by assumption.
  rewrite !add_no_wrap by (eapply fits_le; [|exact Hfit]; lia).
  replace (length x - 3 + 1)%nat with (length x - 2)%nat by lia.
  replace (length x - 3 + 2)%nat with (length x - 1)%nat by lia.
  rewrite value_bind.
  erewrite value_lift2; [| eval_expr ..].
  rewrite value_bind.
  erewrite value_lift2; [| eval_expr ..].
  rewrite value_bind.
  erewrite value_lift2; [| eval_expr ..].
  simpl. unfold spec_tail_xy. rewrite weighted_calls. reflexivity.
Qed.

Lemma triple_y_value (y : list T) (i : nat) (sum : T) :
  SizeT.fits (length y) -> (i + 2 < length y)%nat ->
  value (triple_y y (Z.of_nat i) sum) = Some (sum + spec_triple_y y i).
Proof.
  intros Hfit Hi. unfold triple_y.
  change 1%Z with (Z.of_nat 1). change 2%Z with (Z.of_nat 2).
  rewrite !add_no_wrap by (eapply fits_le; [|exact Hfit]; lia).
  rewrite value_bind.
  erewrite value_lift2; [| eval_expr ..].
  reflexivity.
Qed.

Lemma tail_y_value (y : list T) (dx sum : T) :
  SizeT.fits (length y) -> (3 <= length y)%nat ->
  value (tail_y y dx sum) = Some (sum + spec_tail_y y dx (length y)).
Proof.
  intros Hfit Hn. unfold tail_y, size.
  change 1%Z with (Z.of_nat 1). change 2%Z with (Z.of_nat 2).
  change 3%Z with (Z.of_nat 3).
  rewrite sub_no_wrap by assumption.
  rewrite !add_no_wrap by (eapply fits_le; [|exact Hfit]; lia).
  replace (length y - 3 + 1)%nat with (length y - 2)%nat by lia.
  replace (length y - 3 + 2)%nat with (length y - 1)%nat by lia.
  rewrite value_bind.
  erewrite value_lift2; [| eval_expr ..].
  rewrite value_bind.
  erewrite value_lift2; [| eval_expr ..].
  simpl. unfold spec_tail_y. rewrite weighted_calls. reflexivity.
Qed.

(* ================================================================= *)
(** ** The triple loops *)

Lemma sum_over_cons (i : nat) (l : list nat) (g : nat -> T) :
  sum_over (i :: l) g = g i + sum_over l g.
Proof. reflexivity. Qed.

(** The even indices from an even [i] up to [m]: [i], then those from
    [i + 2]. *)
Lemma even_indices_step (i m : nat) :
  Nat.even i = true -> (i < m)%nat ->
  filter Nat.even (seq i (m - i))
  = i :: filter Nat.even (seq (i + 2) (m - (i + 2))).
Proof.
  intros Hev Hlt.
  assert (Hodd : Nat.even (S i) = false).
  { rewrite Nat.even_succ, <- Nat.negb_even, Hev. reflexivity. }
  destruct (m - i)%nat as [|k] eqn:Ek; [lia|].
  cbn [seq filter]. rewrite Hev. f_equal.
  destruct k as [|k'].
  - replace (m - (i + 2))%nat with 0%nat by lia. reflexivity.
  - cbn [seq filter]. rewrite Hodd.
    replace (i + 2)%nat with (S (S i)) by lia.
    replace (m - S (S i))%nat with k' by lia. reflexivity.
Qed.

Lemma even_plus_2 (i : nat) : Nat.even (i + 2) = Nat.even i.
Proof. replace (i + 2)%nat with (S (S i)) by lia. reflexivity. Qed.

Lemma loop_xy_value (x y : list T) :
  length x = length y -> SizeT.fits (length x) -> (2 <= length x)%nat ->
  forall (fuel i : nat) (sum : T),
    Nat.even i = true ->
    (length x - 2 - i <= 2 * fuel)%nat ->
    value (loop_xy x y fuel (Z.of_nat i) sum)
    = Some (sum + sum_over
                    (filter Nat.even (seq i (length x - 2 - i)))
                    (spec_triple_xy x y)).
Proof.
  intros Hlen Hfit Hn fuel.
  induction fuel as [|fuel IH]; intros i sum Hev Hfuel.
  - assert (Hi : (length x - 2 - i = 0)%nat) by lia.
    rewrite Hi. cbn [loop_xy seq filter sum_over fold_right]. unfold size.
    change 2%Z with (Z.of_nat 2). rewrite sub_no_wrap by assumption.
    destruct (Z.ltb_spec (Z.of_nat i) (Z.of_nat (length x - 2))); [lia|].
    simpl. f_equal. ring.
  - cbn [loop_xy]. unfold size.
    change 2%Z with (Z.of_nat 2). rewrite sub_no_wrap by assumption.
    destruct (Z.ltb_spec (Z.of_nat i) (Z.of_nat (length x - 2)))
      as [Hlt|Hge].
    + rewrite value_bind, triple_xy_value by (assumption || lia).
      rewrite add_no_wrap by (eapply fits_le; [|exact Hfit]; lia).
      rewrite IH by (rewrite ?even_plus_2; assumption || lia).
      rewrite (even_indices_step i (length x - 2)) by (assumption || lia).
      rewrite sum_over_cons. f_equal. ring.
    + replace (length x - 2 - i)%nat with 0%nat by lia.
      simpl. f_equal. ring.
Qed.

Lemma loop_y_value (y : list T) :
  SizeT.fits (length y) -> (2 <= length y)%nat ->
  forall (fuel i : nat) (sum : T),
    Nat.even i = true ->
    (length y - 2 - i <= 2 * fuel)%nat ->
    value (loop_y y fuel (Z.of_nat i) sum)
    = Some (sum + sum_over
                    (filter Nat.even (seq i (length y - 2 - i)))
                    (spec_triple_y y)).
Proof.
  intros Hfit Hn fuel.
  induction fuel as [|fuel IH]; intros i sum Hev Hfuel.
  - assert (Hi : (length y - 2 - i = 0)%nat) by lia.
    rewrite Hi. cbn [loop_y seq filter sum_over fold_right]. unfold size.
    change 2%Z with (Z.of_nat 2). rewrite sub_no_wrap by assumption.
    destruct (Z.ltb_spec (Z.of_nat i) (Z.of_nat (length y - 2))); [lia|].
    simpl. f_equal. ring.
  - cbn [loop_y]. unfold size.
    change 2%Z with (Z.of_nat 2). rewrite sub_no_wrap by assumption.
    destruct (Z.ltb_spec (Z.of_nat i) (Z.of_nat (length y - 2)))
      as [Hlt|Hge].
    + rewrite value_bind, triple_y_value by (assumption || lia).
      rewrite add_no_wrap by (eapply fits_le; [|exact Hfit]; lia).
      rewrite IH by (rewrite ?even_plus_2; assumption || lia).
      rewrite (even_indices_step i (length y - 2)) by (assumption || lia).
      rewrite sum_over_cons. f_equal. ring.
    + replace (length y - 2 - i)%nat with 0%nat by lia.
      simpl. f_equal. ring.
Qed.

(* ================================================================= *)
(** ** The discretized operators *)

Lemma parity_test (n : nat) : (Z.of_nat n mod 2 =? 0)%Z = Nat.even n.
Proof.
  rewrite <- Zeven_mod. induction n as [|n IH]; [reflexivity|].
  rewrite Nat2Z.inj_succ, Z.even_succ, Nat.even_succ.
  rewrite <- Z.negb_even, <- Nat.negb_even, IH. reflexivity.
Qed.

Lemma size_test (n : nat) : (2 <? Z.of_nat n)%Z = (2 <? n)%nat.
Proof.
  destruct (Z.ltb_spec 2 (Z.of_nat n)), (Nat.ltb_spec 2 n);
    reflexivity || lia.
Qed.

Lemma simpson_xy_value (x y : list T) :
  length x = length y -> SizeT.fits (length x) -> (3 <= length x)%nat ->
  value (simpson_xy x y) = Some (spec_simpson_xy x y).
Proof.
  intros Hlen Hfit Hn. unfold simpson_xy, spec_simpson_xy, triple_starts.
  rewrite value_bind.
  change (loop_xy x y (S (length x)) 0%Z 0)
    with (loop_xy x y (S (length x)) (Z.of_nat 0) 0).
  rewrite loop_xy_value by (assumption || reflexivity || lia).
  rewrite Nat.sub_0_r, Qcplus_0_l.
  unfold size. rewrite parity_test, size_test.
  destruct (Nat.even (length x)); cbn [andb].
  - destruct (Nat.ltb_spec 2 (length x)); [|lia].
    apply tail_xy_value; assumption.
  - simpl. f_equal. ring.
Qed.

Lemma simpson_y_value (y : list T) (dx : T) :
  SizeT.fits (length y) -> (3 <= length y)%nat ->
  value (simpson_y y dx) = Some (spec_simpson_y y dx).
Proof.
  intros Hfit Hn. unfold simpson_y, spec_simpson_y, triple_starts.
  rewrite value_bind.
  change (loop_y y (S (length y)) 0%Z 0)
    with (loop_y y (S (length y)) (Z.of_nat 0) 0).
  rewrite loop_y_value by (assumption || reflexivity || lia).
  rewrite Nat.sub_0_r, Qcplus_0_l.
  unfold size. rewrite parity_test.
  destruct (Nat.even (length y)).
  - rewrite tail_y_value by assumption. f_equal. ring.
  - simpl. f_equal. ring.
Qed.

(* ================================================================= *)
(** ** The fuel is enough *)

Lemma bind_fuel {A B} (m : outcome A) (k : A -> outcome B) :
  m <> OutOfFuel -> (forall a, k a <> OutOfFuel) -> bind m k <> OutOfFuel.
Proof.
  intros Hm Hk. destruct m as [a tr| |]; simpl; try congruence.
  specialize (Hk a). destruct (k a); congruence.
Qed.

Lemma ret_fuel {A} (a : A) : ret a <> OutOfFuel.
Proof. discriminate. Qed.

Lemma read_fuel (id : container) (c : list T) (i : Z) :
  read id c i <> OutOfFuel.
Proof.
  unfold read. destruct ((0 <=? i) && (i <? size c))%Z; [|discriminate].
  destruct (nth_error c (Z.to_nat i)); discriminate.
Qed.

Lemma lift2_fuel (op : T -> T -> T) (m1 m2 : outcome T) :
  m1 <> OutOfFuel -> m2 <> OutOfFuel -> lift2 op m1 m2 <> OutOfFuel.
Proof.
  intros H1 H2. unfold lift2.
  apply bind_fuel; [exact H1|]. intros a.
  apply bind_fuel; [exact H2|]. intros b. apply ret_fuel.
Qed.

Lemma call_Lagrange_fuel (mx mA mB mC : outcome T) :
  mx <> OutOfFuel -> mA <> OutOfFuel -> mB <> OutOfFuel ->
  mC <> OutOfFuel -> call_Lagrange mx mA mB mC <> OutOfFuel.
Proof.
  intros Hx HA HB HC. unfold call_Lagrange.
  repeat (apply bind_fuel; [assumption|]; intros ?). apply ret_fuel.
Qed.

(** No expression of the source runs out of fuel: only loops use it. *)
Ltac expr_fuel :=
  repeat first
    [ apply ret_fuel
    | apply read_fuel
    | apply lift2_fuel
    | apply call_Lagrange_fuel
    | apply bind_fuel; [|intros ?] ].



Lemma triple_y_fuel (y : list T) (i : Z) (sum : T) :
  triple_y y i sum <> OutOfFuel.
Proof. unfold triple_y, const, var. expr_fuel. Qed.

Lemma tail_y_fuel (y : list T) (dx sum : T) :
  tail_y y dx sum <> OutOfFuel.
Proof. unfold tail_y, const, var. cbv zeta. expr_fuel. Qed.


Lemma loop_y_fuel (y : list T) :
  SizeT.fits (length y) -> (2 <= length y)%nat ->
  forall (fuel i : nat) (sum : T),
    (length y - 2 - i <= 2 * fuel)%nat ->
    loop_y y fuel (Z.of_nat i) sum <> OutOfFuel.
Proof.
  intros Hfit Hn fuel.
  induction fuel as [|fuel IH]; intros i sum Hfuel;
    cbn [loop_y]; unfold size;
    change 2%Z with (Z.of_nat 2); rewrite sub_no_wrap by assumption;
    destruct (Z.ltb_spec (Z.of_nat i) (Z.of_nat (length y - 2)))
      as [Hlt|Hge]; try apply ret_fuel; try lia.
  apply bind_fuel; [apply triple_y_fuel|]. intros sum'.
  rewrite add_no_wrap by (eapply fits_le; [|exact Hfit]; lia).
  apply IH. lia.
Qed.


Lemma simpson_y_stops (y : list T) (dx : T) :
  SizeT.fits (length y) -> simpson_y y dx <> OutOfFuel.
Proof.
  intros Hfit.
  destruct (Nat.le_gt_cases 2 (length y)) as [Hn|Hn].
  - unfold simpson_y. apply bind_fuel.
    + change 0%Z with (Z.of_nat 0). apply loop_y_fuel; assumption || lia.
    + intros sum. cbv zeta.
      destruct (size y mod 2 =? 0)%Z; [apply tail_y_fuel | apply ret_fuel].
  - destruct y as [|y0 [|y1 y]]; [| |simpl in Hn; lia].
    + assert (E : simpson_y [] dx = OutOfRange) by reflexivity.
      rewrite E. discriminate.
    + assert (E : simpson_y [y0] dx = OutOfRange) by reflexivity.
      rewrite E. discriminate.
Qed.

(* ================================================================= *)
(** ** The Lagrange form is the quadratic through three points *)

Lemma lagrange3_unique (x0 y0 x1 y1 x2 y2 : T) :
  x0 <> x1 -> x0 <> x2 -> x1 <> x2 ->
  unique_quadratic_through x0 y0 x1 y1 x2 y2
    (lagrange3 x0 y0 x1 y1 x2 y2).
Proof.
  intros H01 H02 H12.
  assert (Hthrough : quadratic_through x0 y0 x1 y1 x2 y2
                       (lagrange3 x0 y0 x1 y1 x2 y2)).
  { split; [|repeat split].
    - exists (y0 * x1 * x2 / ((x0 - x1) * (x0 - x2))
              + y1 * x0 * x2 / ((x1 - x0) * (x1 - x2))
              + y2 * x0 * x1 / ((x2 - x0) * (x2 - x1))),
             (- (y0 * (x1 + x2) / ((x0 - x1) * (x0 - x2))
                 + y1 * (x0 + x2) / ((x1 - x0) * (x1 - x2))
                 + y2 * (x0 + x1) / ((x2 - x0) * (x2 - x1)))),
             (y0 / ((x0 - x1) * (x0 - x2))
              + y1 / ((x1 - x0) * (x1 - x2))
              + y2 / ((x2 - x0) * (x2 - x1))).
      intros t. unfold lagrange3. field. nonzero.
    - unfold lagrange3. field. nonzero.
    - unfold lagrange3. field. nonzero.
    - unfold lagrange3. field. nonzero. }
  split; [exact Hthrough|].
  intros q [[c0 [c1 [c2 Hq]]] [Hq0 [Hq1 Hq2]]] t.
  rewrite Hq in Hq0, Hq1, Hq2. rewrite Hq.
  subst y0 y1 y2. unfold lagrange3. field. nonzero.
Qed.

(* ================================================================= *)
(** ** Strictly monotonic abscissas are distinct *)

Lemma chain_adjacent (r : T -> T -> bool) (l : list T) (i : nat) :
  chain r l = true -> (i + 1 < length l)%nat ->
  r (at_ l i) (at_ l (i + 1)) = true.
Proof.
  revert i. induction l as [|a l IH]; intros i Hc Hi; [simpl in Hi; lia|].
  destruct l as [|b l]; [simpl in Hi; lia|].
  cbn [chain] in Hc. apply andb_prop in Hc as [Hab Hc].
  destruct i as [|i]; [exact Hab|].
  unfold at_ in *. cbn [nth Nat.add].
  apply (IH i Hc). simpl in Hi |- *. lia.
Qed.

Lemma ltb_lt (a b : T) : ltb a b = true -> a < b.
Proof.
  unfold ltb. intros H. apply Qclt_alt.
  destruct (a ?= b); congruence.
Qed.

Lemma monotonic_distinct (x : list T) (i : nat) :
  strictly_monotonic x = true -> (i + 2 < length x)%nat ->
  at_ x i <> at_ x (i + 1) /\ at_ x i <> at_ x (i + 2)
  /\ at_ x (i + 1) <> at_ x (i + 2).
Proof.
  intros Hm Hi. unfold strictly_monotonic in Hm.
  apply orb_prop in Hm as [Hc|Hc].
  - assert (H01 := chain_adjacent _ x i Hc ltac:(lia)).
    assert (H12 := chain_adjacent _ x (i + 1) Hc ltac:(lia)).
    replace (i + 1 + 1)%nat with (i + 2)%nat in H12 by lia.
    apply ltb_lt in H01, H12.
    repeat split; apply Qclt_not_eq; try assumption.
    eapply Qclt_trans; eassumption.
  - assert (H01 := chain_adjacent _ x i Hc ltac:(lia)).
    assert (H12 := chain_adjacent _ x (i + 1) Hc ltac:(lia)).
    replace (i + 1 + 1)%nat with (i + 2)%nat in H12 by lia.
    cbv beta in H01, H12. apply ltb_lt in H01, H12.
    repeat split; apply not_eq_sym, Qclt_not_eq; try assumption.
    eapply Qclt_trans; eassumption.
Qed.

(* ================================================================= *)
(** ** Operation C: non-uniform samples *)

(** C1.  For [x] and [y] of the same size [n >= 3] with [x] strictly
    monotonic, [operator()(x, y)] returns the sum, over [i = 0, 2, 4, ...]
    with [i < n - 2], of [(x[i+2] - x[i]) / 6 * (y[i] + 4 ym + y[i+2])],
    plus, exactly when [n] is even (and above 2), the tail term
    [(x[n-1] - x[n-2]) / 6 * (y[n-2] + 4 ym' + y[n-1])].  [ym] is the
    Lagrange form through the triple at the midpoint of its outer points,
    [ym'] the Lagrange form through the last three points at the midpoint
    of the last two; for every three consecutive samples the Lagrange form
    is the one quadratic through them. *)
Theorem simpson_xy_correct (x y : list T) :
  length x = length y ->
  (3 <= length x)%nat ->
  SizeT.fits (length x) ->
  strictly_monotonic x = true ->
  value (simpson_xy x y) = Some (spec_simpson_xy x y)
  /\ forall i, (i + 2 < length x)%nat ->
       unique_quadratic_through
         (at_ x i) (at_ y i) (at_ x (i + 1)) (at_ y (i + 1))
         (at_ x (i + 2)) (at_ y (i + 2))
         (lagrange3 (at_ x i) (at_ y i) (at_ x (i + 1)) (at_ y (i + 1))
                    (at_ x (i + 2)) (at_ y (i + 2))).
Proof.
  intros Hlen Hn Hfit Hmono. split.
  - apply simpson_xy_value; assumption.
  - intros i Hi.
    destruct (monotonic_distinct x i Hmono Hi) as [H01 [H02 H12]].
    apply lagrange3_unique; assumption.
Qed.

Lemma simpson_xy_correct_witness :
  (length (samples [0; 1; 3; 4]%Z) = length (samples [0; 1; 9; 16]%Z)
   /\ (3 <= length (samples [0; 1; 3; 4]%Z))%nat
   /\ SizeT.fits (length (samples [0; 1; 3; 4]%Z))
   /\ strictly_monotonic (samples [0; 1; 3; 4]%Z) = true)
  /\ value (simpson_xy (samples [0; 1; 3; 4]%Z) (samples [0; 1; 9; 16]%Z))
     = Some (spec_simpson_xy (samples [0; 1; 3; 4]%Z)
               (samples [0; 1; 9; 16]%Z)).
Proof.
  assert (H1 : length (samples [0; 1; 3; 4]%Z)
               = length (samples [0; 1; 9; 16]%Z)) by reflexivity.
  assert (H2 : (3 <= length (samples [0; 1; 3; 4]%Z))%nat) by (simpl; lia).
  assert (H3 : SizeT.fits (length (samples [0; 1; 3; 4]%Z)))
    by (vm_compute; reflexivity).
  assert (H4 : strictly_monotonic (samples [0; 1; 3; 4]%Z) = true)
    by (vm_compute; reflexivity).
  split; [auto|].
  exact (proj1 (simpson_xy_correct _ _ H1 H2 H3 H4)).
Defined.

(* ================================================================= *)
(** ** Operation D: uniform samples *)

Lemma is_zero_nonzero (d : T) : d <> 0 -> is_zero d = false.
Proof.
  intros Hd. unfold is_zero.
  destruct (d ?= 0) eqn:E; try reflexivity.
  apply Qceq_alt in E. contradiction.
Qed.

Lemma checked_div_nonzero (a b : T) :
  b <> 0 -> checked_div a b = Returns (a / b) [].
Proof.
  intros Hb. unfold checked_div. rewrite is_zero_nonzero by exact Hb.
  reflexivity.
Qed.

Lemma LagrangePolynomial_checked_distinct (x A B C : T) :
  C <> A -> C <> B ->
  LagrangePolynomial_checked x A B C
  = Returns (LagrangePolynomial x A B C) [].
Proof.
  intros HA HB. unfold LagrangePolynomial_checked.
  rewrite checked_div_nonzero by (apply sub_nonzero; exact HA).
  cbn [checked_bind].
  rewrite checked_div_nonzero by (apply sub_nonzero; exact HB).
  reflexivity.
Qed.

Lemma check_read (id : container) (c : list T) (i : nat) :
  (i < length c)%nat ->
  check (read id c (Z.of_nat i)) = Returns (at_ c i) [Rd id (Z.of_nat i)].
Proof.
  intros Hi. unfold read, size, at_.
  destruct (Z.leb_spec 0 (Z.of_nat i)) as [_|Hneg]; [|lia].
  destruct (Z.ltb_spec (Z.of_nat i) (Z.of_nat (length c))) as [_|Hge];
    [|lia].
  cbn [andb]. rewrite Nat2Z.id.
  destruct (nth_error c i) as [v|] eqn:E.
  - simpl. f_equal. symmetry. now apply nth_error_nth.
  - apply nth_error_None in E. lia.
Qed.

Lemma check_value {A} (m : outcome A) (a : A) :
  value m = Some a -> exists tr, check m = Returns a tr.
Proof.
  destruct m as [a' tr| |]; simpl; intros H; try discriminate.
  injection H as ->. exists tr. reflexivity.
Qed.

Lemma double_step_nonzero (dx : T) : dx <> 0 -> lit 2 * dx <> 0.
Proof.
  intros Hdx H. apply Qcmult_integral in H as [H|H]; [|contradiction].
  revert H. apply lit_nonzero. discriminate.
Qed.

Lemma double_step_apart (dx : T) : dx <> 0 -> lit 2 * dx <> dx.
Proof.
  intros Hdx H. apply Hdx.
  replace dx with (lit 2 * dx - dx) by (literals; ring).
  rewrite H. ring.
Qed.

Lemma tail_y_checked_value (y : list T) (dx sum : T) :
  SizeT.fits (length y) -> (3 <= length y)%nat -> dx <> 0 ->
  checked_value (tail_y_checked y dx sum)
  = Some (sum + spec_tail_y y dx (length y)).
Proof.
  intros Hfit Hn Hdx. unfold tail_y_checked, size.
  change 1%Z with (Z.of_nat 1). change 2%Z with (Z.of_nat 2).
  change 3%Z with (Z.of_nat 3).
  rewrite sub_no_wrap by assumption.
  rewrite !add_no_wrap by (eapply fits_le; [|exact Hfit]; lia).
  replace (length y - 3 + 1)%nat with (length y - 2)%nat by lia.
  replace (length y - 3 + 2)%nat with (length y - 1)%nat by lia.
  cbv zeta. rewrite !check_read by lia.
  rewrite !checked_div_nonzero by (apply lit_nonzero; discriminate).
  assert (H2 := double_step_nonzero dx Hdx).
  assert (H21 := double_step_apart dx Hdx).
  repeat first
    [ rewrite LagrangePolynomial_checked_distinct
        by (assumption || (apply not_eq_sym; assumption))
    | progress cbn [checked_bind checked_ret] ].
  cbn [checked_value]. unfold spec_tail_y. rewrite <- weighted_calls.
  reflexivity.
Qed.

(** The run with checked divisions returns what the specification
    says, as long as the tail block, when it runs, has a step that is not
    zero. *)
Lemma simpson_y_checked_value (y : list T) (dx : T) :
  SizeT.fits (length y) -> (3 <= length y)%nat ->
  (Nat.even (length y) = true -> dx <> 0) ->
  checked_value (simpson_y_checked y dx) = Some (spec_simpson_y y dx).
Proof.
  intros Hfit Hn Hdx. unfold simpson_y_checked, spec_simpson_y, triple_starts.
  assert (Hloop := loop_y_value y Hfit ltac:(lia) (S (length y)) 0 0).
  specialize (Hloop eq_refl ltac:(lia)).
  apply check_value in Hloop as [tr Hloop].
  change (Z.of_nat 0) with 0%Z in Hloop. rewrite Hloop.
  rewrite checked_div_nonzero by (apply lit_nonzero; discriminate).
  cbn [checked_bind]. unfold size. rewrite parity_test.
  rewrite Nat.sub_0_r, Qcplus_0_l.
  destruct (Nat.even (length y)) eqn:E.
  - assert (Hv := tail_y_checked_value y dx
                    (sum_over (filter Nat.even (seq 0 (length y - 2)))
                       (spec_triple_y y) * (dx / lit 3))
                    Hfit Hn (Hdx eq_refl)).
    destruct (tail_y_checked y dx _) as [v tr'| | |];
      simpl in Hv; try discriminate.
    injection Hv as ->. simpl. f_equal. ring.
  - simpl. f_equal. ring.
Qed.

(** C2, for every step: with four samples and a step of zero the tail
    block divides by zero in its first call of [LagrangePolynomial], and
    the operator returns no value. *)
Lemma simpson_y_zero_step :
  ((3 <= length (samples [0; 1; 4; 9]%Z))%nat
   /\ SizeT.fits (length (samples [0; 1; 4; 9]%Z)))
  /\ simpson_y_checked (samples [0; 1; 4; 9]%Z) 0 = DividesByZero
  /\ checked_value (simpson_y_checked (samples [0; 1; 4; 9]%Z) 0)
     <> Some (spec_simpson_y (samples [0; 1; 4; 9]%Z) 0).
Proof.
  assert (E : simpson_y_checked (samples [0; 1; 4; 9]%Z) 0 = DividesByZero)
    by (vm_compute; reflexivity).
  split; [split; [simpl; lia | vm_compute; reflexivity]|].
  split; [exact E|]. rewrite E. discriminate.
Qed.

(** C2.  For [y] of size [n >= 3] and a step [dx] (1 when it is not
    given) that is not zero when [n] is even, [operator()(y, dx)]
    returns [dx / 3] times the sum, over [i = 0, 2, 4, ...] with
    [i < n - 2], of [y[i] + 4 y[i+1] + y[i+2]], plus, exactly when [n] is
    even, the separate term [dx / 6 * (y[n-2] + 4 ym + y[n-1])], where
    [ym] is the Lagrange form through the last three samples placed at
    [0], [dx] and [2 dx], at [3 dx / 2]; for a step that is not zero this
    is the one quadratic through them.  (With an even [n] and a step of
    zero the tail block divides by zero.) *)
Theorem simpson_y_correct (y : list T) (dx : T) :
  (3 <= length y)%nat ->
  SizeT.fits (length y) ->
  (Nat.even (length y) = true -> dx <> 0) ->
  checked_value (simpson_y_checked y dx) = Some (spec_simpson_y y dx)
  /\ checked_value (simpson_y_default_checked y) = Some (spec_simpson_y y 1)
  /\ value (simpson_y y dx) = Some (spec_simpson_y y dx)
  /\ (dx <> 0 ->
      let n := length y in
      unique_quadratic_through
        0 (at_ y (n - 3)) dx (at_ y (n - 2)) (lit 2 * dx) (at_ y (n - 1))
        (lagrange3 0 (at_ y (n - 3)) dx (at_ y (n - 2))
                   (lit 2 * dx) (at_ y (n - 1)))).
Proof.
  intros Hn Hfit Hdx. split; [|split; [|split]].
  - apply simpson_y_checked_value; assumption.
  - apply simpson_y_checked_value; try assumption.
    intros _. rewrite <- lit_1. apply lit_nonzero. discriminate.
  - apply simpson_y_value; assumption.
  - intros Hdx0 n.
    apply lagrange3_unique.
    + apply not_eq_sym. exact Hdx0.
    + apply not_eq_sym, double_step_nonzero. exact Hdx0.
    + apply not_eq_sym, double_step_apart. exact Hdx0.
Qed.

Lemma simpson_y_correct_witness :
  ((3 <= length (samples [0; 1; 4; 9]%Z))%nat
   /\ SizeT.fits (length (samples [0; 1; 4; 9]%Z))
   /\ (Nat.even (length (samples [0; 1; 4; 9]%Z)) = true -> lit 2 <> 0))
  /\ checked_value (simpson_y_checked (samples [0; 1; 4; 9]%Z) (lit 2))
     = Some (spec_simpson_y (samples [0; 1; 4; 9]%Z) (lit 2)).
Proof.
  assert (H1 : (3 <= length (samples [0; 1; 4; 9]%Z))%nat) by (simpl; lia).
  assert (H2 : SizeT.fits (length (samples [0; 1; 4; 9]%Z)))
    by (vm_compute; reflexivity).
  assert (H3 : Nat.even (length (samples [0; 1; 4; 9]%Z)) = true
               -> lit 2 <> 0)
    by (intros _; vm_compute; discriminate).
  split; [auto|].
  exact (proj1 (simpson_y_correct _ (lit 2) H1 H2 H3)).
Defined.

(** C8.  [y = [0, 1, 4, 9]] with [dx = 1] has four samples, so the tail
    block runs, and the operator returns 9, the integral of [x^2] from 0
    to 3. *)
Theorem simpson_y_squares :
  value (simpson_y (samples [0; 1; 4; 9]%Z) 1) = Some (lit 9)
  /\ value (simpson_y_default (samples [0; 1; 4; 9]%Z)) = Some (lit 9)
  /\ (size (samples [0; 1; 4; 9]%Z) mod 2 =? 0)%Z = true
  /\ integral [0; 0; 1] 0 (lit 3) = lit 9.
Proof.
  split; [|split; [|split]].
  - vm_compute. f_equal. apply Qc_is_canon. reflexivity.
  - vm_compute. f_equal. apply Qc_is_canon. reflexivity.
  - reflexivity.
  - apply Qc_is_canon. vm_compute. reflexivity.
Qed.


(* ================================================================= *)
(** ** Two samples *)

(** C9.  With [x] of size 2, [operator()(x, y)] returns 0 without reading
    any element of [x] or [y]: the loop bound [x.size() - 2] is 0 and the
    tail block is guarded by [x.size() > 2].  [operator()(y, dx)] has no
    such guard: with two samples its tail block reads [y[y.size() - 3]],
    an index that wraps around and lies outside the container. *)
Theorem simpson_xy_two_samples (x y : list T) (dx : T) :
  length x = 2%nat ->
  simpson_xy x y = Done 0 []
  /\ value (simpson_xy x y) = Some 0
  /\ accesses (simpson_xy x y) = []
  /\ (length y = 2%nat -> simpson_y y dx = OutOfRange).
Proof.
  intros Hx.
  destruct x as [|x0 [|x1 [|x2 x]]]; try discriminate Hx.
  assert (E : simpson_xy [x0; x1] y = Done 0 []) by reflexivity.
  rewrite E. repeat split.
  intros Hy.
  destruct y as [|y0 [|y1 [|y2 y]]]; try discriminate Hy.
  unfold simpson_y.
  assert (L : loop_y [y0; y1] 3 0 0 = Done 0 []) by reflexivity.
  cbn [length]. rewrite L. cbn [bind].
  assert (Hodd : (size [y0; y1] mod 2 =? 0)%Z = true) by reflexivity.
  rewrite Hodd. unfold tail_y.
  rewrite (read_outside CY [y0; y1] (SizeT.sub (size [y0; y1]) 3))
    by (vm_compute; discriminate).
  reflexivity.
Qed.

Lemma simpson_xy_two_samples_witness :
  length (samples [5; 7]%Z) = 2%nat
  /\ simpson_xy (samples [5; 7]%Z) (samples [1; 2]%Z) = Done 0 []
  /\ value (simpson_xy (samples [5; 7]%Z) (samples [1; 2]%Z)) = Some 0
  /\ accesses (simpson_xy (samples [5; 7]%Z) (samples [1; 2]%Z)) = []
  /\ (length (samples [1; 2]%Z) = 2%nat ->
      simpson_y (samples [1; 2]%Z) 1 = OutOfRange).
Proof.
  assert (H : length (samples [5; 7]%Z) = 2%nat) by reflexivity.
  split; [exact H|].
  exact (simpson_xy_two_samples (samples [5; 7]%Z) (samples [1; 2]%Z) 1 H).
Defined.

(* ================================================================= *)
(** ** A triple whose middle abscissa is the midpoint *)

(** C10.  In a triple of [operator()(x, y)] with three distinct abscissas
    whose middle one is the midpoint of the outer two, the three Lagrange
    weights at the midpoint are 0, 1 and 0, the interpolated value is
    [y[i+1]], and the triple adds the classic Simpson term
    [(x[i+2] - x[i]) / 6 * (y[i] + 4 y[i+1] + y[i+2])]. *)
Theorem midpoint_collapse (x y : list T) (i : nat) (sum : T) :
  length x = length y ->
  SizeT.fits (length x) ->
  (i + 2 < length x)%nat ->
  at_ x (i + 1) = (at_ x i + at_ x (i + 2)) / lit 2 ->
  at_ x i <> at_ x (i + 1) ->
  at_ x i <> at_ x (i + 2) ->
  at_ x (i + 1) <> at_ x (i + 2) ->
  let m := (at_ x i + at_ x (i + 2)) / lit 2 in
  let w0 := LagrangePolynomial m (at_ x (i + 1)) (at_ x (i + 2)) (at_ x i) in
  let w1 := LagrangePolynomial m (at_ x i) (at_ x (i + 2)) (at_ x (i + 1)) in
  let w2 := LagrangePolynomial m (at_ x i) (at_ x (i + 1)) (at_ x (i + 2)) in
  (w0 = 0 /\ w1 = 1 /\ w2 = 0)
  /\ at_ y i * w0 + at_ y (i + 1) * w1 + at_ y (i + 2) * w2 = at_ y (i + 1)
  /\ value (triple_xy x y (Z.of_nat i) sum)
     = Some (sum + (at_ x (i + 2) - at_ x i) / lit 6
                   * (at_ y i + lit 4 * at_ y (i + 1) + at_ y (i + 2))).
Proof.
  intros Hlen Hfit Hi Hmid H01 H02 H12 m w0 w1 w2.
  assert (Hm : m = at_ x (i + 1)) by (symmetry; exact Hmid).
  assert (W0 : w0 = 0).
  { unfold w0. rewrite Hm, LagrangePolynomial_quotient. field. nonzero. }
  assert (W1 : w1 = 1).
  { unfold w1. rewrite Hm, LagrangePolynomial_quotient. field. nonzero. }
  assert (W2 : w2 = 0).
  { unfold w2. rewrite Hm, LagrangePolynomial_quotient. field. nonzero. }
  assert (Hym : at_ y i * w0 + at_ y (i + 1) * w1 + at_ y (i + 2) * w2
                = at_ y (i + 1)).
  { rewrite W0, W1, W2. ring. }
  split; [auto|]. split; [exact Hym|].
  rewrite triple_xy_value by assumption.
  unfold spec_triple_xy. rewrite <- weighted_calls.
  fold m. fold w0. fold w1. fold w2. rewrite Hym. reflexivity.
Qed.

Lemma midpoint_collapse_witness :
  (length (samples [0; 2; 4]%Z) = length (samples [1; 5; 2]%Z)
   /\ SizeT.fits (length (samples [0; 2; 4]%Z))
   /\ (0 + 2 < length (samples [0; 2; 4]%Z))%nat
   /\ at_ (samples [0; 2; 4]%Z) (0 + 1)
      = (at_ (samples [0; 2; 4]%Z) 0 + at_ (samples [0; 2; 4]%Z) (0 + 2))
        / lit 2
   /\ at_ (samples [0; 2; 4]%Z) 0 <> at_ (samples [0; 2; 4]%Z) (0 + 1)
   /\ at_ (samples [0; 2; 4]%Z) 0 <> at_ (samples [0; 2; 4]%Z) (0 + 2)
   /\ at_ (samples [0; 2; 4]%Z) (0 + 1) <> at_ (samples [0; 2; 4]%Z) (0 + 2))
  /\ value (triple_xy (samples [0; 2; 4]%Z) (samples [1; 5; 2]%Z)
              (Z.of_nat 0) 0)
     = Some (0 + (at_ (samples [0; 2; 4]%Z) (0 + 2)
                  - at_ (samples [0; 2; 4]%Z) 0)
                 / lit 6
                 * (at_ (samples [1; 5; 2]%Z) 0
                    + lit 4 * at_ (samples [1; 5; 2]%Z) (0 + 1)
                    + at_ (samples [1; 5; 2]%Z) (0 + 2))).
Proof.
  assert (H1 : length (samples [0; 2; 4]%Z) = length (samples [1; 5; 2]%Z))
    by reflexivity.
  assert (H2 : SizeT.fits (length (samples [0; 2; 4]%Z)))
    by (vm_compute; reflexivity).
  assert (H3 : (0 + 2 < length (samples [0; 2; 4]%Z))%nat) by (simpl; lia).
  assert (H4 : at_ (samples [0; 2; 4]%Z) (0 + 1)
               = (at_ (samples [0; 2; 4]%Z) 0
                  + at_ (samples [0; 2; 4]%Z) (0 + 2))
                 / lit 2)
    by (apply Qc_is_canon; vm_compute; reflexivity).
  assert (H5 : at_ (samples [0; 2; 4]%Z) 0 <> at_ (samples [0; 2; 4]%Z) (0 + 1))
    by (vm_compute; discriminate).
  assert (H6 : at_ (samples [0; 2; 4]%Z) 0 <> at_ (samples [0; 2; 4]%Z) (0 + 2))
    by (vm_compute; discriminate).
  assert (H7 : at_ (samples [0; 2; 4]%Z) (0 + 1)
               <> at_ (samples [0; 2; 4]%Z) (0 + 2))
    by (vm_compute; discriminate).
  split; [repeat split; assumption|].
  exact (proj2 (proj2 (midpoint_collapse _ (samples [1; 5; 2]%Z) 0 0
                         H1 H2 H3 H4 H5 H6 H7))).
Defined.

(* ================================================================= *)
(** ** Sums over index lists *)

Lemma sum_over_ext_in (l : list nat) (g h : nat -> T) :
  (forall i, In i l -> g i = h i) -> sum_over l g = sum_over l h.
Proof.
  induction l as [|i l IH]; intros H; [reflexivity|].
  rewrite !sum_over_cons, (H i) by (left; reflexivity).
  rewrite IH by (intros j Hj; apply H; right; exact Hj). reflexivity.
Qed.

Lemma sum_over_map (k : nat -> nat) (l : list nat) (g : nat -> T) :
  sum_over (map k l) g = sum_over l (fun i => g (k i)).
Proof.
  induction l as [|i l IH]; [reflexivity|].
  cbn [map]. rewrite !sum_over_cons, IH. reflexivity.
Qed.

Lemma sum_over_scale (c : T) (l : list nat) (g : nat -> T) :
  sum_over l (fun i => c * g i) = c * sum_over l g.
Proof.
  induction l as [|i l IH]; [simpl; ring|].
  rewrite !sum_over_cons, IH. ring.
Qed.

Lemma sum_over_app (l1 l2 : list nat) (g : nat -> T) :
  sum_over (l1 ++ l2) g = sum_over l1 g + sum_over l2 g.
Proof.
  induction l1 as [|i l1 IH]; [simpl; ring|].
  cbn [app]. rewrite !sum_over_cons, IH. ring.
Qed.

Lemma sum_over_seq_S (n : nat) (g : nat -> T) :
  sum_over (seq 0 (S n)) g = g 0%nat + sum_over (seq 0 n) (fun i => g (S i)).
Proof.
  cbn [seq]. rewrite sum_over_cons, <- seq_shift, sum_over_map.
  reflexivity.
Qed.

Lemma sum_over_seq_last (n : nat) (g : nat -> T) :
  sum_over (seq 0 (S n)) g = sum_over (seq 0 n) g + g n.
Proof.
  rewrite seq_S, sum_over_app. cbn [Nat.add]. simpl. ring.
Qed.

(** Summing in the opposite order. *)
Lemma sum_over_reverse (n : nat) (g : nat -> T) :
  sum_over (seq 0 n) (fun i => g (n - 1 - i)%nat) = sum_over (seq 0 n) g.
Proof.
  induction n as [|n IH]; [reflexivity|].
  rewrite sum_over_seq_S, sum_over_seq_last.
  replace (S n - 1 - 0)%nat with n by lia.
  rewrite <- IH, Qcplus_comm. f_equal.
  apply sum_over_ext_in. intros i Hi. apply in_seq in Hi.
  f_equal. lia.
Qed.

Lemma of_count_add (m n : nat) : of_count (m + n) = of_count m + of_count n.
Proof. unfold of_count. rewrite Nat2Z.inj_add. apply lit_add. Qed.

(* ================================================================= *)
(** ** Operation A: a callable over an interval *)

Lemma loop_f_sum (f : T -> T) (dx : T) (n : nat) :
  forall x sum,
    loop_f f dx n x sum
    = sum + sum_over (seq 0 n)
              (fun i => simpson_term f dx (x + of_count i * dx)).
Proof.
  induction n as [|n IH]; intros x sum.
  - simpl. ring.
  - cbn [loop_f]. rewrite IH, sum_over_seq_S.
    rewrite of_count_0.
    replace (x + 0 * dx) with x by ring.
    fold (simpson_term f dx x).
    rewrite <- Qcplus_assoc. f_equal. f_equal.
    apply sum_over_ext_in. intros i _.
    f_equal. rewrite of_count_S. ring.
Qed.

Lemma loop_fixed_loop_f (f : T -> T) (dx : T) (n : nat) :
  forall x sum, loop_fixed f dx n x sum = loop_f f dx n x sum.
Proof.
  induction n as [|n IH]; intros x sum; [reflexivity|].
  cbn [loop_fixed loop_f]. apply IH.
Qed.

Lemma simpson_f_sum (f : T -> T) (a b : T) (N : nat) :
  simpson_f f a b N = spec_simpson_f f a b N.
Proof.
  unfold simpson_f, spec_simpson_f. rewrite loop_f_sum.
  unfold simpson_term. ring.
Qed.

(** C3.  For [N >= 1], [operator()(f, a, b, N)] returns
    [dx / 6] times the sum over [i = 0 .. N-1] of
    [f(x_i) + 4 f(x_i + dx/2) + f(x_i + dx)], with [dx = (b - a) / N] and
    [x_i = a + i dx]. *)
Theorem simpson_f_correct (f : T -> T) (a b : T) (N : nat) :
  (1 <= N)%nat ->
  let dx := (b - a) / of_count N in
  simpson_f f a b N
  = dx / lit 6
    * sum_over (seq 0 N)
        (fun i => let x_i := a + of_count i * dx in
                  f x_i + lit 4 * f (x_i + dx / lit 2) + f (x_i + dx)).
Proof. intros _ dx. apply simpson_f_sum. Qed.

Lemma simpson_f_correct_witness :
  (1 <= 2)%nat
  /\ simpson_f (fun t => t * t) 0 (lit 3) 2
     = (lit 3 - 0) / of_count 2 / lit 6
       * sum_over (seq 0 2)
           (fun i =>
              simpson_term (fun t => t * t) ((lit 3 - 0) / of_count 2)
                (0 + of_count i * ((lit 3 - 0) / of_count 2))).
Proof.
  assert (H : (1 <= 2)%nat) by lia.
  split; [exact H | exact (simpson_f_correct (fun t => t * t) 0 (lit 3) 2 H)].
Defined.

(** C6.  For [NN >= 1], [operator()(f, a, b)] of [SimpsonRule<T, NN>]
    returns what [operator()(f, a, b, N)] returns for [N = NN]. *)
Theorem simpson_fixed_runtime (NN : nat) (f : T -> T) (a b : T) :
  (1 <= NN)%nat ->
  simpson_fixed NN f a b = simpson_f f a b NN.
Proof.
  intros _. unfold simpson_fixed, simpson_f.
  rewrite loop_fixed_loop_f. reflexivity.
Qed.

Lemma simpson_fixed_runtime_witness :
  (1 <= 3)%nat
  /\ simpson_fixed 3 (fun t => t * t * t + lit 2) (lit 1) (lit 5)
     = simpson_f (fun t => t * t * t + lit 2) (lit 1) (lit 5) 3.
Proof.
  assert (H : (1 <= 3)%nat) by lia.
  split; [exact H|].
  exact (simpson_fixed_runtime 3 (fun t => t * t * t + lit 2)
           (lit 1) (lit 5) H).
Defined.

(** The width of a sub-interval times their number is the whole width. *)
Lemma width_total (a b : T) (N : nat) :
  (1 <= N)%nat -> of_count N * ((b - a) / of_count N) = b - a.
Proof.
  intros HN. field. apply of_count_nonzero. exact HN.
Qed.

Lemma width_reversed (a b : T) (N : nat) :
  (a - b) / of_count N = - ((b - a) / of_count N).
Proof. unfold Qcdiv. ring. Qed.

(** C7.  For [N >= 1], [operator()(f, a, b, N)] is the negation of
    [operator()(f, b, a, N)]. *)
Theorem simpson_f_reversal (f : T -> T) (a b : T) (N : nat) :
  (1 <= N)%nat ->
  simpson_f f a b N = - simpson_f f b a N.
Proof.
  intros HN. rewrite !simpson_f_sum. unfold spec_simpson_f.
  rewrite (width_reversed a b N).
  set (dx := (b - a) / of_count N).
  assert (Hb : b = a + of_count N * dx).
  { unfold dx. rewrite width_total by exact HN. ring. }
  rewrite <- (sum_over_reverse N
    (fun i => f (a + of_count i * dx)
              + lit 4 * f (a + of_count i * dx + dx / lit 2)
              + f (a + of_count i * dx + dx))).
  assert (E : sum_over (seq 0 N)
                (fun i => f (b + of_count i * - dx)
                          + lit 4 * f (b + of_count i * - dx + - dx / lit 2)
                          + f (b + of_count i * - dx + - dx))
              = sum_over (seq 0 N)
                  (fun i => f (a + of_count (N - 1 - i) * dx)
                            + lit 4 * f (a + of_count (N - 1 - i) * dx
                                         + dx / lit 2)
                            + f (a + of_count (N - 1 - i) * dx + dx))).
  { apply sum_over_ext_in. intros i Hi. apply in_seq in Hi.
    assert (HNi : of_count N = of_count (N - 1 - i) + 1 + of_count i).
    { rewrite <- of_count_S, <- of_count_add. f_equal. lia. }
    set (xj := a + of_count (N - 1 - i) * dx).
    replace (b + of_count i * - dx) with (xj + dx)
      by (unfold xj; rewrite Hb, HNi; ring).
    replace (xj + dx + - dx / lit 2) with (xj + dx / lit 2)
      by (literals; field; nonzero).
    replace (xj + dx + - dx) with xj by ring.
    ring. }
  cbv zeta. rewrite E. unfold Qcdiv. ring.
Qed.

Lemma simpson_f_reversal_witness :
  (1 <= 2)%nat
  /\ simpson_f (fun t => t * t * t + t) (lit 1) (lit 4) 2
     = - simpson_f (fun t => t * t * t + t) (lit 4) (lit 1) 2.
Proof.
  assert (H : (1 <= 2)%nat) by lia.
  split; [exact H|].
  exact (simpson_f_reversal (fun t => t * t * t + t) (lit 1) (lit 4) 2 H).
Defined.

(* ================================================================= *)
(** ** Exactness on cubics *)

(** When Simpson's rule is exact for [f] on every single sub-interval,
    with [F] an antiderivative, the loop telescopes. *)
Lemma loop_f_telescope (f F : T -> T) (dx : T) :
  (forall x, simpson_term f dx x * (dx / lit 6) = F (x + dx) - F x) ->
  forall n x sum,
    loop_f f dx n x sum * (dx / lit 6)
    = sum * (dx / lit 6) + (F (x + of_count n * dx) - F x).
Proof.
  intros Hstep n. induction n as [|n IH]; intros x sum.
  - cbn [loop_f]. rewrite of_count_0.
    replace (x + 0 * dx) with x by ring. ring.
  - cbn [loop_f]. fold (simpson_term f dx x). rewrite IH.
    replace (x + dx + of_count n * dx) with (x + of_count (S n) * dx)
      by (rewrite of_count_S; ring).
    rewrite Qcmult_plus_distr_l, Hstep. ring.
Qed.

Lemma of_count_1 : of_count 1 = 1.
Proof. apply lit_1. Qed.

Lemma of_count_2 : of_count 2 = 1 + 1.
Proof. apply lit_2. Qed.

Lemma of_count_3 : of_count 3 = 1 + 1 + 1.
Proof. apply lit_3. Qed.

Lemma of_count_4 : of_count 4 = (1 + 1) * (1 + 1).
Proof. apply lit_4. Qed.

(** Simpson's rule on one sub-interval is exact up to degree three. *)
Lemma simpson_term_cubic (p : list T) (dx x : T) :
  (length p <= 4)%nat ->
  simpson_term (eval_poly p) dx x * (dx / lit 6)
  = eval_poly (antiderivative p) (x + dx) - eval_poly (antiderivative p) x.
Proof.
  intros Hp. unfold simpson_term, antiderivative.
  destruct p as [|c0 [|c1 [|c2 [|c3 [|c4 p]]]]];
    try (simpl in Hp; lia);
    cbn [eval_poly integrate_from];
    rewrite ?of_count_1, ?of_count_2, ?of_count_3, ?of_count_4;
    literals; field; nonzero.
Qed.

Lemma derive_integrate (k : nat) (p : list T) :
  derive_from (S k) (integrate_from k p) = p.
Proof.
  revert k. induction p as [|c p IH]; intros k; [reflexivity|].
  cbn [integrate_from derive_from]. rewrite IH. f_equal.
  field. apply of_count_nonzero. lia.
Qed.

(** The derivative of the antiderivative is the polynomial itself. *)
Lemma derivative_antiderivative (p : list T) :
  derivative (antiderivative p) = p.
Proof. unfold antiderivative, derivative. apply derive_integrate. Qed.

(** C4.  For a polynomial [p] of degree at most 3, bounds [a], [b] and
    [N >= 1], [operator()(p, a, b, N)], and [operator()(p, a, b)] with
    [NN = N], return the integral of [p] over [[a, b]]: the difference at
    [b] and [a] of the antiderivative of [p]. *)
Theorem simpson_f_exact (p : list T) (a b : T) (N : nat) :
  (length p <= 4)%nat ->
  (1 <= N)%nat ->
  simpson_f (eval_poly p) a b N = integral p a b
  /\ simpson_fixed N (eval_poly p) a b = integral p a b
  /\ derivative (antiderivative p) = p.
Proof.
  intros Hp HN.
  assert (HA : simpson_f (eval_poly p) a b N = integral p a b).
  { unfold simpson_f, integral. cbv zeta.
    rewrite (loop_f_telescope (eval_poly p) (eval_poly (antiderivative p)))
      by (intros x; apply simpson_term_cubic; exact Hp).
    rewrite width_total by exact HN.
    replace (a + (b - a)) with b by ring. ring. }
  split; [exact HA|]. split.
  - unfold simpson_fixed. rewrite loop_fixed_loop_f. exact HA.
  - apply derivative_antiderivative.
Qed.

Lemma simpson_f_exact_witness :
  ((length (samples [1; -2; 0; 5]%Z) <= 4)%nat /\ (1 <= 3)%nat)
  /\ simpson_f (eval_poly (samples [1; -2; 0; 5]%Z)) (lit 1) (lit 2) 3
     = integral (samples [1; -2; 0; 5]%Z) (lit 1) (lit 2)
  /\ simpson_fixed 3 (eval_poly (samples [1; -2; 0; 5]%Z)) (lit 1) (lit 2)
     = integral (samples [1; -2; 0; 5]%Z) (lit 1) (lit 2)
  /\ derivative (antiderivative (samples [1; -2; 0; 5]%Z))
     = samples [1; -2; 0; 5]%Z.
Proof.
  assert (H1 : (length (samples [1; -2; 0; 5]%Z) <= 4)%nat) by (simpl; lia).
  assert (H2 : (1 <= 3)%nat) by lia.
  split; [auto|].
  exact (simpson_f_exact (samples [1; -2; 0; 5]%Z) (lit 1) (lit 2) 3 H1 H2).
Defined.

(* ================================================================= *)
(** ** Evenly spaced abscissas *)

Lemma uniform_grid_length (x0 dx : T) (n : nat) :
  length (uniform_grid x0 dx n) = n.
Proof. unfold uniform_grid. rewrite length_map, length_seq. reflexivity. Qed.

Lemma at_uniform_grid (x0 dx : T) (n i : nat) :
  (i < n)%nat -> at_ (uniform_grid x0 dx n) i = x0 + of_count i * dx.
Proof.
  intros Hi. unfold at_, uniform_grid.
  rewrite (nth_indep _ 0 (x0 + of_count 0 * dx))
    by (rewrite length_map, length_seq; exact Hi).
  rewrite (map_nth (fun i => x0 + of_count i * dx)), seq_nth by exact Hi.
  reflexivity.
Qed.

Lemma triple_starts_bound (n i : nat) :
  In i (triple_starts n) -> (i + 2 < n)%nat.
Proof.
  unfold triple_starts. intros H.
  apply filter_In in H as [H _]. apply in_seq in H. lia.
Qed.

Lemma lagrange3_shift (s x0 y0 x1 y1 x2 y2 t : T) :
  lagrange3 (x0 + s) y0 (x1 + s) y1 (x2 + s) y2 (t + s)
  = lagrange3 x0 y0 x1 y1 x2 y2 t.
Proof.
  assert (H : forall u v : T, u + s - (v + s) = u - v) by (intros; ring).
  unfold lagrange3. rewrite !H. reflexivity.
Qed.

Lemma lagrange3_at_middle (x0 y0 x1 y1 x2 y2 : T) :
  x0 <> x1 -> x0 <> x2 -> x1 <> x2 ->
  lagrange3 x0 y0 x1 y1 x2 y2 x1 = y1.
Proof.
  intros H01 H02 H12.
  destruct (lagrange3_unique x0 y0 x1 y1 x2 y2 H01 H02 H12)
    as [[_ [_ [H _]]] _].
  exact H.
Qed.

Lemma step_apart (a h : T) : h <> 0 -> a <> a + h.
Proof.
  intros Hh H. apply Hh.
  replace h with (a + h - a) by ring. rewrite <- H. ring.
Qed.

Lemma double_nonzero (h : T) : h <> 0 -> h + h <> 0.
Proof.
  intros Hh H. replace (h + h) with ((1 + 1) * h) in H by ring.
  apply Qcmult_integral in H as [H|H]; [|contradiction].
  revert H. rewrite <- lit_2. apply lit_nonzero. discriminate.
Qed.

Lemma spec_triple_uniform (y : list T) (x0 dx : T) (n i : nat) :
  dx <> 0 -> (i + 2 < n)%nat ->
  spec_triple_xy (uniform_grid x0 dx n) y i = dx / lit 3 * spec_triple_y y i.
Proof.
  intros Hdx Hi. unfold spec_triple_xy, spec_triple_y.
  rewrite !at_uniform_grid by lia.
  set (X := x0 + of_count i * dx).
  replace (x0 + of_count (i + 1) * dx) with (X + dx)
    by (unfold X; rewrite of_count_add, of_count_1; ring).
  replace (x0 + of_count (i + 2) * dx) with (X + (dx + dx))
    by (unfold X; rewrite of_count_add, of_count_2; ring).
  replace ((X + (X + (dx + dx))) / lit 2) with (X + dx)
    by (literals; field; nonzero).
  rewrite lagrange3_at_middle.
  - literals. field. nonzero.
  - apply step_apart. exact Hdx.
  - apply step_apart, double_nonzero. exact Hdx.
  - replace (X + (dx + dx)) with (X + dx + dx) by ring.
    apply step_apart. exact Hdx.
Qed.

Lemma spec_tail_uniform (y : list T) (x0 dx : T) (n : nat) :
  (3 <= n)%nat ->
  spec_tail_xy (uniform_grid x0 dx n) y n = spec_tail_y y dx n.
Proof.
  intros Hn. unfold spec_tail_xy, spec_tail_y.
  rewrite !at_uniform_grid by lia.
  set (X := x0 + of_count (n - 3) * dx).
  replace (n - 2)%nat with (n - 3 + 1)%nat by lia.
  replace (n - 1)%nat with (n - 3 + 2)%nat by lia.
  replace (x0 + of_count (n - 3 + 1) * dx) with (dx + X)
    by (unfold X; rewrite of_count_add, of_count_1; ring).
  replace (x0 + of_count (n - 3 + 2) * dx) with (lit 2 * dx + X)
    by (unfold X; rewrite of_count_add, of_count_2; literals; ring).
  replace ((dx + X + (lit 2 * dx + X)) / lit 2)
    with (lit 3 * dx / lit 2 + X) by (literals; field; nonzero).
  replace (lit 2 * dx + X - (dx + X)) with dx by (literals; ring).
  rewrite <- (lagrange3_shift X 0). 
  replace (0 + X) with X by ring. reflexivity.
Qed.

Lemma spec_uniform (y : list T) (x0 dx : T) :
  dx <> 0 -> (3 <= length y)%nat ->
  spec_simpson_xy (uniform_grid x0 dx (length y)) y = spec_simpson_y y dx.
Proof.
  intros Hdx Hn. unfold spec_simpson_xy, spec_simpson_y.
  rewrite uniform_grid_length. cbv zeta.
  rewrite (sum_over_ext_in _ _ (fun i => dx / lit 3 * spec_triple_y y i))
    by (intros i Hi; apply spec_triple_uniform;
        [exact Hdx | apply triple_starts_bound; exact Hi]).
  rewrite sum_over_scale.
  destruct (Nat.ltb_spec 2 (length y)) as [_|Hle]; [|lia].
  rewrite andb_true_r.
  destruct (Nat.even (length y)); [|reflexivity].
  rewrite spec_tail_uniform by assumption. reflexivity.
Qed.

(** C5.  For [y] of size [n >= 3] and a step [dx] that is not zero,
    [operator()(x, y)] on the abscissas [x[i] = x0 + i dx] returns what
    [operator()(y, dx)] returns; the two tail blocks, entered with the same
    sum, return the same value as well. *)
Theorem uniform_consistency (y : list T) (x0 dx : T) :
  (3 <= length y)%nat ->
  SizeT.fits (length y) ->
  dx <> 0 ->
  (exists v,
     value (simpson_xy (uniform_grid x0 dx (length y)) y) = Some v
     /\ value (simpson_y y dx) = Some v)
  /\ forall sum,
       exists v,
         value (tail_xy (uniform_grid x0 dx (length y)) y sum) = Some v
         /\ value (tail_y y dx sum) = Some v.
Proof.
  intros Hn Hfit Hdx. split.
  - exists (spec_simpson_y y dx). split.
    + rewrite simpson_xy_value
        by (rewrite uniform_grid_length; assumption || reflexivity).
      rewrite spec_uniform by assumption. reflexivity.
    + apply simpson_y_value; assumption.
  - intros sum. exists (sum + spec_tail_y y dx (length y)). split.
    + rewrite tail_xy_value
        by (rewrite uniform_grid_length; assumption || reflexivity).
      rewrite uniform_grid_length, spec_tail_uniform by assumption.
      reflexivity.
    + apply tail_y_value; assumption.
Qed.

Lemma uniform_consistency_witness :
  ((3 <= length (samples [2; 7; 1; 8]%Z))%nat
   /\ SizeT.fits (length (samples [2; 7; 1; 8]%Z))
   /\ Q2Qc (1 # 2) <> 0)
  /\ exists v,
       value (simpson_xy
                (uniform_grid (lit 3) (Q2Qc (1 # 2))
                   (length (samples [2; 7; 1; 8]%Z)))
                (samples [2; 7; 1; 8]%Z)) = Some v
       /\ value (simpson_y (samples [2; 7; 1; 8]%Z) (Q2Qc (1 # 2))) = Some v.
Proof.
  assert (H1 : (3 <= length (samples [2; 7; 1; 8]%Z))%nat) by (simpl; lia).
  assert (H2 : SizeT.fits (length (samples [2; 7; 1; 8]%Z)))
    by (vm_compute; reflexivity).
  assert (H3 : Q2Qc (1 # 2) <> 0) by (vm_compute; discriminate).
  split; [auto|].
  exact (proj1 (uniform_consistency (samples [2; 7; 1; 8]%Z) (lit 3)
                  (Q2Qc (1 # 2)) H1 H2 H3)).
Defined.

(* ================================================================= *)
(** ** More literals *)

Lemma lit_5 : lit 5 = 1 + (1 + 1) * (1 + 1).
Proof. apply Qc_is_canon. reflexivity. Qed.

Lemma lit_8 : lit 8 = (1 + 1) * ((1 + 1) * (1 + 1)).
Proof. apply Qc_is_canon. reflexivity. Qed.

Lemma lit_12 : lit 12 = (1 + 1) * ((1 + 1) * (1 + 1 + 1)).
Proof. apply Qc_is_canon. reflexivity. Qed.

Ltac all_literals := rewrite ?lit_12, ?lit_8, ?lit_5; literals.

Lemma opp_nonzero (a : T) : a <> 0 -> - a <> 0.
Proof.
  intros Ha H. apply Ha. replace a with (- - a) by ring. rewrite H. ring.
Qed.

Lemma mult_nonzero (a b : T) : a <> 0 -> b <> 0 -> a * b <> 0.
Proof.
  intros Ha Hb H. apply Qcmult_integral in H as [H|H]; contradiction.
Qed.

(** Side conditions of [field] that are products and opposites. *)
Ltac nonzero_factors :=
  repeat split;
  repeat first
    [ assumption
    | numeral_nonzero
    | apply sub_nonzero; solve [ assumption | apply not_eq_sym; assumption ]
    | apply opp_nonzero
    | apply mult_nonzero ].

(* ================================================================= *)
(** ** Containers that are too small *)

(** X1.  With fewer than two abscissas the loop bound [x.size() - 2] wraps
    around, the loop is entered and [x[i+2]] (or [x[0]]) lies outside
    [x], whatever [y] holds. *)
Theorem simpson_xy_too_small (x y : list T) :
  (length x < 2)%nat -> simpson_xy x y = OutOfRange.
Proof.
  intros Hn. destruct x as [|x0 [|x1 x]]; [| |simpl in Hn; lia].
  - reflexivity.
  - reflexivity.
Qed.

Lemma simpson_xy_too_small_witness :
  (length (samples [4]%Z) < 2)%nat
  /\ simpson_xy (samples [4]%Z) (samples [1; 2; 3]%Z) = OutOfRange.
Proof.
  assert (H : (length (samples [4]%Z) < 2)%nat) by (simpl; lia).
  split; [exact H|].
  exact (simpson_xy_too_small (samples [4]%Z) (samples [1; 2; 3]%Z) H).
Defined.

(** X2.  With fewer than three ordinates [operator()(y, dx)] reads outside
    [y]: in the loop when the bound wraps around (sizes 0 and 1), in the
    tail block at [y[y.size() - 3]] for size 2. *)
Theorem simpson_y_too_small (y : list T) (dx : T) :
  (length y < 3)%nat -> simpson_y y dx = OutOfRange.
Proof.
  intros Hn. destruct y as [|y0 [|y1 [|y2 y]]]; [| | |simpl in Hn; lia].
  - reflexivity.
  - reflexivity.
  - unfold simpson_y.
    assert (L : loop_y [y0; y1] 3 0 0 = Done 0 []) by reflexivity.
    cbn [length]. rewrite L. cbn [bind].
    assert (Hev : (size [y0; y1] mod 2 =? 0)%Z = true) by reflexivity.
    rewrite Hev. unfold tail_y.
    rewrite (read_outside CY [y0; y1] (SizeT.sub (size [y0; y1]) 3))
      by (vm_compute; discriminate).
    reflexivity.
Qed.

Lemma simpson_y_too_small_witness :
  (length (samples [4; 6]%Z) < 3)%nat
  /\ simpson_y (samples [4; 6]%Z) (lit 2) = OutOfRange.
Proof.
  assert (H : (length (samples [4; 6]%Z) < 3)%nat) by (simpl; lia).
  split; [exact H|].
  exact (simpson_y_too_small (samples [4; 6]%Z) (lit 2) H).
Defined.

(* ================================================================= *)
(** ** The Lagrange basis term *)

(** X3.  [LagrangePolynomial(x, A, B, C)] is the basis term of the node [C]:
    it is 1 at [C] and 0 at the other two nodes, when [C] differs from
    both. *)
Theorem LagrangePolynomial_nodes (A B C : T) :
  C <> A -> C <> B ->
  LagrangePolynomial C A B C = 1
  /\ LagrangePolynomial A A B C = 0
  /\ LagrangePolynomial B A B C = 0.
Proof.
  intros HA HB. rewrite !LagrangePolynomial_quotient.
  repeat split; field; nonzero.
Qed.

Lemma LagrangePolynomial_nodes_witness :
  (lit 5 <> lit 1 /\ lit 5 <> lit 2)
  /\ LagrangePolynomial (lit 5) (lit 1) (lit 2) (lit 5) = 1
  /\ LagrangePolynomial (lit 1) (lit 1) (lit 2) (lit 5) = 0
  /\ LagrangePolynomial (lit 2) (lit 1) (lit 2) (lit 5) = 0.
Proof.
  assert (H1 : lit 5 <> lit 1) by (vm_compute; discriminate).
  assert (H2 : lit 5 <> lit 2) by (vm_compute; discriminate).
  split; [auto|].
  exact (LagrangePolynomial_nodes (lit 1) (lit 2) (lit 5) H1 H2).
Defined.

(** X4.  The three basis terms, called as the operators call them, add up
    to 1 at every [t] when the three nodes are distinct: constant data
    is interpolated by itself. *)
Theorem LagrangePolynomial_sum (x0 x1 x2 t : T) :
  x0 <> x1 -> x0 <> x2 -> x1 <> x2 ->
  LagrangePolynomial t x1 x2 x0
  + LagrangePolynomial t x0 x2 x1
  + LagrangePolynomial t x0 x1 x2 = 1.
Proof.
  intros H01 H02 H12. rewrite !LagrangePolynomial_quotient.
  field. nonzero.
Qed.

Lemma LagrangePolynomial_sum_witness :
  (lit 1 <> lit 2 /\ lit 1 <> lit 5 /\ lit 2 <> lit 5)
  /\ LagrangePolynomial (lit 3) (lit 2) (lit 5) (lit 1)
     + LagrangePolynomial (lit 3) (lit 1) (lit 5) (lit 2)
     + LagrangePolynomial (lit 3) (lit 1) (lit 2) (lit 5) = 1.
Proof.
  assert (H1 : lit 1 <> lit 2) by (vm_compute; discriminate).
  assert (H2 : lit 1 <> lit 5) by (vm_compute; discriminate).
  assert (H3 : lit 2 <> lit 5) by (vm_compute; discriminate).
  split; [auto|].
  exact (LagrangePolynomial_sum (lit 1) (lit 2) (lit 5) (lit 3) H1 H2 H3).
Defined.

(* ================================================================= *)
(** ** The tail block of Operation D in closed form *)

Lemma tail_weights (dx : T) :
  dx <> 0 ->
  LagrangePolynomial (lit 3 * dx / lit 2) dx (lit 2 * dx) 0 = - (1 / lit 8)
  /\ LagrangePolynomial (lit 3 * dx / lit 2) 0 (lit 2 * dx) dx
     = lit 3 / lit 4
  /\ LagrangePolynomial (lit 3 * dx / lit 2) 0 dx (lit 2 * dx)
     = lit 3 / lit 8.
Proof.
  intros Hdx. rewrite !LagrangePolynomial_quotient.
  split; [|split]; all_literals;
    replace (dx - (1 + 1) * dx) with (- dx) by ring;
    replace ((1 + 1) * dx - dx) with dx by ring;
    field; nonzero_factors.
Qed.

Lemma lagrange3_tail (dx y0 y1 y2 : T) :
  dx <> 0 ->
  lagrange3 0 y0 dx y1 (lit 2 * dx) y2 (lit 3 * dx / lit 2)
  = (lit 3 * y2 + lit 6 * y1 - y0) / lit 8.
Proof.
  intros Hdx. rewrite <- weighted_calls.
  destruct (tail_weights dx Hdx) as [W0 [W1 W2]].
  rewrite W0, W1, W2. all_literals. field. nonzero.
Qed.

(** X5.  For a step that is not zero, the three hard-coded calls of
    [LagrangePolynomial] in the tail block of [operator()(y, dx)] are
    [-1/8], [3/4] and [3/8], and the block adds
    [dx / 12 * (5 y[n-1] + 8 y[n-2] - y[n-3])] to the sum. *)
Theorem tail_y_closed_form (y : list T) (dx sum : T) :
  (3 <= length y)%nat ->
  SizeT.fits (length y) ->
  dx <> 0 ->
  let n := length y in
  (LagrangePolynomial (lit 3 * dx / lit 2) dx (lit 2 * dx) 0 = - (1 / lit 8)
   /\ LagrangePolynomial (lit 3 * dx / lit 2) 0 (lit 2 * dx) dx
      = lit 3 / lit 4
   /\ LagrangePolynomial (lit 3 * dx / lit 2) 0 dx (lit 2 * dx)
      = lit 3 / lit 8)
  /\ value (tail_y y dx sum)
     = Some (sum + dx / lit 12
                   * (lit 5 * at_ y (n - 1) + lit 8 * at_ y (n - 2)
                      - at_ y (n - 3))).
Proof.
  intros Hn Hfit Hdx n. split; [exact (tail_weights dx Hdx)|].
  rewrite tail_y_value by assumption.
  unfold spec_tail_y. rewrite lagrange3_tail by exact Hdx.
  fold n. f_equal. f_equal. all_literals. field. nonzero.
Qed.

Lemma tail_y_closed_form_witness :
  ((3 <= length (samples [0; 1; 4; 9]%Z))%nat
   /\ SizeT.fits (length (samples [0; 1; 4; 9]%Z))
   /\ lit 2 <> 0)
  /\ value (tail_y (samples [0; 1; 4; 9]%Z) (lit 2) 0)
     = Some (0 + lit 2 / lit 12
                 * (lit 5 * at_ (samples [0; 1; 4; 9]%Z) (4 - 1)
                    + lit 8 * at_ (samples [0; 1; 4; 9]%Z) (4 - 2)
                    - at_ (samples [0; 1; 4; 9]%Z) (4 - 3))).
Proof.
  assert (H1 : (3 <= length (samples [0; 1; 4; 9]%Z))%nat) by (simpl; lia).
  assert (H2 : SizeT.fits (length (samples [0; 1; 4; 9]%Z)))
    by (vm_compute; reflexivity).
  assert (H3 : lit 2 <> 0) by (vm_compute; discriminate).
  split; [auto|].
  exact (proj2 (tail_y_closed_form (samples [0; 1; 4; 9]%Z) (lit 2) 0
                  H1 H2 H3)).
Defined.

(* ================================================================= *)
(** ** Samples of a polynomial *)

Lemma at_sample_at (f : T -> T) (x : list T) (i : nat) :
  (i < length x)%nat -> at_ (sample_at f x) i = f (at_ x i).
Proof.
  intros Hi. unfold at_, sample_at.
  rewrite (nth_indep _ 0 (f 0)) by (rewrite length_map; exact Hi).
  apply map_nth.
Qed.

Lemma sample_at_length (f : T -> T) (x : list T) :
  length (sample_at f x) = length x.
Proof. apply length_map. Qed.

Lemma eval_poly_quadratic (p : list T) :
  (length p <= 3)%nat -> is_quadratic (eval_poly p).
Proof.
  intros Hp.
  destruct p as [|c0 [|c1 [|c2 [|c3 p]]]]; try (simpl in Hp; lia).
  - exists 0, 0, 0. intros t. simpl. ring.
  - exists c0, 0, 0. intros t. simpl. ring.
  - exists c0, c1, 0. intros t. simpl. ring.
  - exists c0, c1, c2. intros t. simpl. ring.
Qed.

(** The Lagrange form through three samples of a quadratic is the
    quadratic. *)
Lemma lagrange3_quadratic (p : list T) (x0 x1 x2 t : T) :
  (length p <= 3)%nat -> x0 <> x1 -> x0 <> x2 -> x1 <> x2 ->
  lagrange3 x0 (eval_poly p x0) x1 (eval_poly p x1) x2 (eval_poly p x2) t
  = eval_poly p t.
Proof.
  intros Hp H01 H02 H12.
  destruct (lagrange3_unique x0 (eval_poly p x0) x1 (eval_poly p x1)
              x2 (eval_poly p x2) H01 H02 H12) as [_ Huniq].
  symmetry. apply Huniq.
  split; [apply eval_poly_quadratic; exact Hp | repeat split].
Qed.

(** Simpson's rule on [[u, v]] with the exact midpoint value. *)
Lemma simpson_interval (p : list T) (u v : T) :
  (length p <= 4)%nat ->
  (v - u) / lit 6
  * (eval_poly p u + lit 4 * eval_poly p ((u + v) / lit 2) + eval_poly p v)
  = integral p u v.
Proof.
  intros Hp. unfold integral.
  replace v with (u + (v - u)) at 4 by ring.
  rewrite <- (simpson_term_cubic p (v - u) u Hp). unfold simpson_term.
  replace (u + (v - u) / lit 2) with ((u + v) / lit 2)
    by (literals; field; nonzero).
  replace (u + (v - u)) with v by ring.
  ring.
Qed.

Lemma integral_chain (p : list T) (u v w : T) :
  integral p u v + integral p v w = integral p u w.
Proof. unfold integral. ring. Qed.

Lemma integral_empty (p : list T) (u : T) : integral p u u = 0.
Proof. unfold integral. ring. Qed.

(* ================================================================= *)
(** ** Triples chain from the first sample to the last even one *)

Lemma triples_end_bounds (m : nat) :
  (m <= triples_end m <= S m)%nat /\ Nat.even (triples_end m) = true.
Proof.
  unfold triples_end. destruct (Nat.even m) eqn:E.
  - split; [lia | exact E].
  - split; [lia|]. rewrite Nat.even_succ, <- Nat.negb_even, E. reflexivity.
Qed.

Lemma even_between (i m : nat) :
  Nat.even i = true -> (m <= i)%nat -> (i <= triples_end m)%nat ->
  i = triples_end m.
Proof.
  intros Hi Hm Ht. unfold triples_end in *.
  destruct (Nat.even m) eqn:E; [lia|].
  destruct (Nat.eq_dec i m) as [->|Hne]; [congruence | lia].
Qed.

Lemma even_step_below (i m : nat) :
  Nat.even i = true -> (i < m)%nat -> (i + 2 <= triples_end m)%nat.
Proof.
  intros Hi Hlt. unfold triples_end.
  destruct (Nat.even m) eqn:E; [|lia].
  destruct (Nat.eq_dec (S i) m) as [<-|Hne]; [|lia].
  rewrite Nat.even_succ, <- Nat.negb_even, Hi in E. discriminate.
Qed.

(** Contributions that are integrals over [[x[i], x[i+2]]] add up to the
    integral from the first abscissa of the run to the last. *)
Lemma sum_over_triples_chain (p : list T) (pt : nat -> T) (m : nat) :
  forall (k i : nat),
    Nat.even i = true -> (m - i <= 2 * k)%nat -> (i <= triples_end m)%nat ->
    sum_over (filter Nat.even (seq i (m - i)))
      (fun j => integral p (pt j) (pt (j + 2)%nat))
    = integral p (pt i) (pt (triples_end m)).
Proof.
  induction k as [|k IH]; intros i Hi Hk Ht.
  - assert (Hm : (m <= i)%nat) by lia.
    replace (m - i)%nat with 0%nat by lia. cbn [seq filter sum_over fold_right].
    rewrite (even_between i m Hi Hm Ht). symmetry. apply integral_empty.
  - destruct (Nat.le_gt_cases m i) as [Hm|Hlt].
    + replace (m - i)%nat with 0%nat by lia.
      cbn [seq filter sum_over fold_right].
      rewrite (even_between i m Hi Hm Ht). symmetry. apply integral_empty.
    + rewrite (even_indices_step i m Hi Hlt), sum_over_cons.
      rewrite IH.
      * apply integral_chain.
      * rewrite even_plus_2. exact Hi.
      * lia.
      * apply even_step_below; assumption.
Qed.

(* ================================================================= *)
(** ** Operation C is exact on quadratics *)

Lemma spec_triple_quadratic (p x : list T) (i : nat) :
  (length p <= 3)%nat -> strictly_monotonic x = true ->
  (i + 2 < length x)%nat ->
  spec_triple_xy x (sample_at (eval_poly p) x) i
  = integral p (at_ x i) (at_ x (i + 2)).
Proof.
  intros Hp Hmono Hi.
  destruct (monotonic_distinct x i Hmono Hi) as [H01 [H02 H12]].
  unfold spec_triple_xy. rewrite !at_sample_at by lia.
  rewrite lagrange3_quadratic by assumption.
  apply simpson_interval. lia.
Qed.

Lemma spec_tail_quadratic (p x : list T) :
  (length p <= 3)%nat -> strictly_monotonic x = true ->
  (3 <= length x)%nat ->
  spec_tail_xy x (sample_at (eval_poly p) x) (length x)
  = integral p (at_ x (length x - 2)) (at_ x (length x - 1)).
Proof.
  intros Hp Hmono Hn.
  destruct (monotonic_distinct x (length x - 3) Hmono ltac:(lia))
    as [H01 [H02 H12]].
  replace (length x - 3 + 1)%nat with (length x - 2)%nat in * by lia.
  replace (length x - 3 + 2)%nat with (length x - 1)%nat in * by lia.
  unfold spec_tail_xy. rewrite !at_sample_at by lia.
  rewrite lagrange3_quadratic by assumption.
  apply simpson_interval. lia.
Qed.

Lemma even_minus_2 (n : nat) :
  (2 <= n)%nat -> Nat.even (n - 2) = Nat.even n.
Proof.
  intros Hn. destruct n as [|[|n]]; try lia.
  replace (S (S n) - 2)%nat with n by lia. reflexivity.
Qed.

(** X6.  When the ordinates are the values of a polynomial of degree at most 2
    on strictly monotonic abscissas, [operator()(x, y)] returns its
    integral from the first abscissa to the last, for an odd and for an
    even number of samples. *)
Theorem simpson_xy_quadratic (p x : list T) :
  (length p <= 3)%nat ->
  (3 <= length x)%nat ->
  SizeT.fits (length x) ->
  strictly_monotonic x = true ->
  value (simpson_xy x (sample_at (eval_poly p) x))
  = Some (integral p (at_ x 0) (at_ x (length x - 1))).
Proof.
  intros Hp Hn Hfit Hmono.
  rewrite simpson_xy_value
    by (rewrite ?sample_at_length; assumption || reflexivity).
  f_equal. unfold spec_simpson_xy, triple_starts. cbv zeta.
  rewrite (sum_over_ext_in _ _
             (fun j => integral p (at_ x j) (at_ x (j + 2)%nat)))
    by (intros i Hi; apply spec_triple_quadratic; try assumption;
        apply triple_starts_bound; exact Hi).
  replace (length x - 2)%nat with (length x - 2 - 0)%nat at 1 by lia.
  rewrite (sum_over_triples_chain p (at_ x) (length x - 2) (length x) 0)
    by (reflexivity || lia).
  unfold triples_end. rewrite even_minus_2 by lia.
  destruct (Nat.even (length x)) eqn:E.
  - destruct (Nat.ltb_spec 2 (length x)) as [_|Hle]; [|lia].
    cbn [andb]. rewrite spec_tail_quadratic by assumption.
    apply integral_chain.
  - cbn [andb]. replace (S (length x - 2)) with (length x - 1)%nat by lia.
    ring.
Qed.

Lemma simpson_xy_quadratic_witness :
  ((length (samples [2; -1; 3]%Z) <= 3)%nat
   /\ (3 <= length (samples [0; 1; 3; 7]%Z))%nat
   /\ SizeT.fits (length (samples [0; 1; 3; 7]%Z))
   /\ strictly_monotonic (samples [0; 1; 3; 7]%Z) = true)
  /\ value (simpson_xy (samples [0; 1; 3; 7]%Z)
              (sample_at (eval_poly (samples [2; -1; 3]%Z))
                 (samples [0; 1; 3; 7]%Z)))
     = Some (integral (samples [2; -1; 3]%Z)
               (at_ (samples [0; 1; 3; 7]%Z) 0)
               (at_ (samples [0; 1; 3; 7]%Z)
                  (length (samples [0; 1; 3; 7]%Z) - 1))).
Proof.
  assert (H1 : (length (samples [2; -1; 3]%Z) <= 3)%nat) by (simpl; lia).
  assert (H2 : (3 <= length (samples [0; 1; 3; 7]%Z))%nat) by (simpl; lia).
  assert (H3 : SizeT.fits (length (samples [0; 1; 3; 7]%Z)))
    by (vm_compute; reflexivity).
  assert (H4 : strictly_monotonic (samples [0; 1; 3; 7]%Z) = true)
    by (vm_compute; reflexivity).
  split; [auto|].
  exact (simpson_xy_quadratic (samples [2; -1; 3]%Z)
           (samples [0; 1; 3; 7]%Z) H1 H2 H3 H4).
Defined.

(* ================================================================= *)
(** ** Operation D on cubics *)

Lemma at_uniform_samples (f : T -> T) (x0 dx : T) (n i : nat) :
  (i < n)%nat ->
  at_ (sample_at f (uniform_grid x0 dx n)) i = f (x0 + of_count i * dx).
Proof.
  intros Hi. rewrite at_sample_at by (rewrite uniform_grid_length; exact Hi).
  rewrite at_uniform_grid by exact Hi. reflexivity.
Qed.

Lemma spec_triple_cubic (p : list T) (x0 dx : T) (n i : nat) :
  (length p <= 4)%nat -> (i + 2 < n)%nat ->
  dx / lit 3
  * spec_triple_y (sample_at (eval_poly p) (uniform_grid x0 dx n)) i
  = integral p (x0 + of_count i * dx) (x0 + of_count (i + 2) * dx).
Proof.
  intros Hp Hi. unfold spec_triple_y.
  rewrite !at_uniform_samples by lia.
  rewrite <- simpson_interval by exact Hp.
  set (X := x0 + of_count i * dx).
  replace (x0 + of_count (i + 1) * dx) with (X + dx)
    by (unfold X; rewrite of_count_add, of_count_1; ring).
  replace (x0 + of_count (i + 2) * dx) with (X + (dx + dx))
    by (unfold X; rewrite of_count_add, of_count_2; ring).
  replace ((X + (X + (dx + dx))) / lit 2) with (X + dx)
    by (literals; field; nonzero).
  replace ((X + (dx + dx) - X) / lit 6) with (dx / lit 3)
    by (literals; field; nonzero).
  reflexivity.
Qed.

(** Simpson's rule on the last interval with the midpoint value taken
    from the quadratic through the last three samples of a cubic. *)
Lemma tail_cubic (p : list T) (X dx : T) :
  (length p <= 4)%nat ->
  dx / lit 6
  * (eval_poly p (X + dx)
     + lit 4 * ((lit 3 * eval_poly p (X + lit 2 * dx)
                 + lit 6 * eval_poly p (X + dx) - eval_poly p X) / lit 8)
     + eval_poly p (X + lit 2 * dx))
  = integral p (X + dx) (X + lit 2 * dx)
    + nth 3 p 0 * (dx * dx * dx * dx) / lit 4.
Proof.
  intros Hp. unfold integral, antiderivative.
  destruct p as [|c0 [|c1 [|c2 [|c3 [|c4 p]]]]];
    try (simpl in Hp; lia);
    cbn [eval_poly integrate_from nth];
    rewrite ?of_count_1, ?of_count_2, ?of_count_3, ?of_count_4;
    all_literals; field; nonzero.
Qed.

(** X7.  On [n >= 3] samples of a polynomial [p] of degree at most 3 taken
    every [dx <> 0] from [x0], [operator()(y, dx)] returns the integral
    of [p] from the first to the last abscissa when [n] is odd; when [n]
    is even the tail block adds the error [c3 dx^4 / 4], where [c3] is
    the cubic coefficient, so that quadratics are integrated exactly for
    every [n]. *)
Theorem simpson_y_cubic (p : list T) (x0 dx : T) (n : nat) :
  (length p <= 4)%nat ->
  (3 <= n)%nat ->
  SizeT.fits n ->
  dx <> 0 ->
  value (simpson_y (sample_at (eval_poly p) (uniform_grid x0 dx n)) dx)
  = Some (integral p x0 (x0 + of_count (n - 1) * dx)
          + (if Nat.even n
             then nth 3 p 0 * (dx * dx * dx * dx) / lit 4
             else 0)).
Proof.
  intros Hp Hn Hfit Hdx.
  assert (Hlen : length (sample_at (eval_poly p) (uniform_grid x0 dx n)) = n)
    by (rewrite sample_at_length; apply uniform_grid_length).
  rewrite simpson_y_value by (rewrite Hlen; assumption).
  f_equal. unfold spec_simpson_y, triple_starts. rewrite Hlen. cbv zeta.
  rewrite <- sum_over_scale.
  rewrite (sum_over_ext_in _ _
             (fun j => integral p (x0 + of_count j * dx)
                         (x0 + of_count (j + 2) * dx)))
    by (intros i Hi; apply spec_triple_cubic; [exact Hp|];
        apply triple_starts_bound; exact Hi).
  replace (n - 2)%nat with (n - 2 - 0)%nat at 1 by lia.
  rewrite (sum_over_triples_chain p (fun j => x0 + of_count j * dx)
             (n - 2) n 0) by (reflexivity || lia).
  rewrite of_count_0. replace (x0 + 0 * dx) with x0 by ring.
  unfold triples_end. rewrite even_minus_2 by lia.
  destruct (Nat.even n) eqn:E.
  - unfold spec_tail_y. rewrite lagrange3_tail by exact Hdx.
    rewrite !at_uniform_samples by lia.
    set (X := x0 + of_count (n - 3) * dx).
    replace (x0 + of_count (n - 2) * dx) with (X + dx)
      by (unfold X; replace (n - 2)%nat with (n - 3 + 1)%nat by lia;
          rewrite of_count_add, of_count_1; ring).
    replace (x0 + of_count (n - 1) * dx) with (X + lit 2 * dx)
      by (unfold X; replace (n - 1)%nat with (n - 3 + 2)%nat by lia;
          rewrite of_count_add, of_count_2; literals; ring).
    rewrite tail_cubic by exact Hp.
    rewrite <- (integral_chain p x0 (X + dx) (X + lit 2 * dx)). ring.
  - replace (S (n - 2)) with (n - 1)%nat by lia. reflexivity.
Qed.

Lemma simpson_y_cubic_witness :
  ((length (samples [0; 0; 0; 1]%Z) <= 4)%nat
   /\ (3 <= 4)%nat /\ SizeT.fits 4 /\ lit 1 <> 0)
  /\ value (simpson_y
              (sample_at (eval_poly (samples [0; 0; 0; 1]%Z))
                 (uniform_grid 0 (lit 1) 4)) (lit 1))
     = Some (integral (samples [0; 0; 0; 1]%Z) 0
               (0 + of_count (4 - 1) * lit 1)
             + (if Nat.even 4
                then nth 3 (samples [0; 0; 0; 1]%Z) 0
                     * (lit 1 * lit 1 * lit 1 * lit 1) / lit 4
                else 0)).
Proof.
  assert (H1 : (length (samples [0; 0; 0; 1]%Z) <= 4)%nat) by (simpl; lia).
  assert (H2 : (3 <= 4)%nat) by lia.
  assert (H3 : SizeT.fits 4) by (vm_compute; reflexivity).
  assert (H4 : lit 1 <> 0) by (vm_compute; discriminate).
  split; [auto|].
  exact (simpson_y_cubic (samples [0; 0; 0; 1]%Z) 0 (lit 1) 4 H1 H2 H3 H4).
Defined.

(* ================================================================= *)
(** ** Operation A through Operation D *)

Lemma even_indices_double (N : nat) :
  forall i, Nat.even i = true ->
    filter Nat.even (seq i (2 * N - 1))
    = map (fun j => (i + 2 * j)%nat) (seq 0 N).
Proof.
  induction N as [|N IH]; intros i Hi; [reflexivity|].
  replace (2 * S N - 1)%nat with (i + 2 * S N - 1 - i)%nat by lia.
  rewrite even_indices_step by (assumption || lia).
  replace (i + 2 * S N - 1 - (i + 2))%nat with (2 * N - 1)%nat by lia.
  rewrite IH by (rewrite even_plus_2; exact Hi).
  cbn [seq map]. f_equal; [lia|].
  rewrite <- seq_shift, map_map. apply map_ext. intros j. lia.
Qed.

Lemma odd_size (N : nat) : Nat.even (2 * N + 1) = false.
Proof.
  replace (2 * N + 1)%nat with (S (2 * N)) by lia.
  rewrite Nat.even_succ, <- Nat.negb_even, Nat.even_mul. reflexivity.
Qed.

Lemma half_step_samples_length (f : T -> T) (a h : T) (N : nat) :
  length (half_step_samples f a h N) = (2 * N + 1)%nat.
Proof.
  unfold half_step_samples. rewrite sample_at_length.
  apply uniform_grid_length.
Qed.

(** X8.  [operator()(f, a, b, N)] returns what [operator()(y, h)] returns on
    the [2 N + 1] values of [f] at the end points and midpoints of the
    sub-intervals, taken every [h = dx / 2]. *)
Theorem simpson_f_as_samples (f : T -> T) (a b : T) (N : nat) :
  (1 <= N)%nat ->
  SizeT.fits (2 * N + 1) ->
  let h := (b - a) / of_count N / lit 2 in
  value (simpson_y (half_step_samples f a h N) h)
  = Some (simpson_f f a b N).
Proof.
  intros HN Hfit h.
  rewrite simpson_y_value
    by (rewrite half_step_samples_length; assumption || lia).
  f_equal. rewrite simpson_f_sum.
  unfold spec_simpson_y, spec_simpson_f, triple_starts.
  rewrite half_step_samples_length, odd_size. cbv zeta.
  replace (2 * N + 1 - 2)%nat with (2 * N - 1)%nat by lia.
  rewrite even_indices_double by reflexivity.
  rewrite sum_over_map.
  set (dx := (b - a) / of_count N).
  assert (Hh : h = dx / lit 2) by reflexivity.
  rewrite (sum_over_ext_in _ _
             (fun i => f (a + of_count i * dx)
                       + lit 4 * f (a + of_count i * dx + dx / lit 2)
                       + f (a + of_count i * dx + dx))).
  - rewrite Hh. literals. field. nonzero.
  - intros j Hj. apply in_seq in Hj. unfold spec_triple_y, half_step_samples.
    rewrite !at_uniform_samples by lia.
    replace (a + of_count (0 + 2 * j) * h) with (a + of_count j * dx)
      by (rewrite Hh; cbn [Nat.add];
          replace (2 * j)%nat with (j + j)%nat by lia;
          rewrite of_count_add; literals; field; nonzero).
    replace (a + of_count (0 + 2 * j + 1) * h)
      with (a + of_count j * dx + dx / lit 2)
      by (rewrite Hh; cbn [Nat.add];
          replace (2 * j + 1)%nat with (j + j + 1)%nat by lia;
          rewrite !of_count_add, of_count_1; literals; field; nonzero).
    replace (a + of_count (0 + 2 * j + 2) * h)
      with (a + of_count j * dx + dx)
      by (rewrite Hh; cbn [Nat.add];
          replace (2 * j + 2)%nat with (j + j + 2)%nat by lia;
          rewrite !of_count_add, of_count_2; literals; field; nonzero).
    reflexivity.
Qed.

Lemma simpson_f_as_samples_witness :
  ((1 <= 2)%nat /\ SizeT.fits (2 * 2 + 1))
  /\ value (simpson_y
              (half_step_samples (fun t => t * t * t) (lit 1)
                 ((lit 4 - lit 1) / of_count 2 / lit 2) 2)
              ((lit 4 - lit 1) / of_count 2 / lit 2))
     = Some (simpson_f (fun t => t * t * t) (lit 1) (lit 4) 2).
Proof.
  assert (H1 : (1 <= 2)%nat) by lia.
  assert (H2 : SizeT.fits (2 * 2 + 1)) by (vm_compute; reflexivity).
  split; [auto|].
  exact (simpson_f_as_samples (fun t => t * t * t) (lit 1) (lit 4) 2 H1 H2).
Defined.

(* ================================================================= *)
(** ** Operation A on adjacent intervals *)

Lemma seq_from (N M : nat) : seq N M = map (fun j => (N + j)%nat) (seq 0 M).
Proof.
  revert N. induction M as [|M IH]; intros N; [reflexivity|].
  cbn [seq map]. f_equal; [lia|].
  rewrite (IH (S N)), <- (seq_shift M 0), map_map.
  apply map_ext. intros j. lia.
Qed.

(** X9.  With the same sub-interval width on [[a, b]] and [[b, c]], the results
    of [operator()(f, a, b, N)] and [operator()(f, b, c, M)] add up to
    the result of [operator()(f, a, c, N + M)]. *)
Theorem simpson_f_adjacent (f : T -> T) (a b c : T) (N M : nat) :
  (1 <= N)%nat ->
  (1 <= M)%nat ->
  (b - a) / of_count N = (c - b) / of_count M ->
  simpson_f f a b N + simpson_f f b c M = simpson_f f a c (N + M).
Proof.
  intros HN HM Hdx. rewrite !simpson_f_sum. unfold spec_simpson_f.
  rewrite <- Hdx.
  set (dx := (b - a) / of_count N) in *.
  assert (Hb : b = a + of_count N * dx).
  { unfold dx. rewrite width_total by exact HN. ring. }
  assert (Hc : c = b + of_count M * dx).
  { rewrite Hdx. rewrite width_total by exact HM. ring. }
  assert (HNM : of_count (N + M) <> 0) by (apply of_count_nonzero; lia).
  assert (Hac : (c - a) / of_count (N + M) = dx).
  { rewrite Hc, Hb, of_count_add. rewrite of_count_add in HNM.
    field. exact HNM. }
  rewrite Hac. cbv zeta.
  rewrite seq_app, sum_over_app. cbn [Nat.add].
  rewrite (seq_from N M), sum_over_map.
  rewrite (sum_over_ext_in (seq 0 M)
             (fun i => f (a + of_count (N + i) * dx)
                       + lit 4 * f (a + of_count (N + i) * dx + dx / lit 2)
                       + f (a + of_count (N + i) * dx + dx))
             (fun i => f (b + of_count i * dx)
                       + lit 4 * f (b + of_count i * dx + dx / lit 2)
                       + f (b + of_count i * dx + dx))).
  - ring.
  - intros j _.
    replace (a + of_count (N + j) * dx) with (b + of_count j * dx)
      by (rewrite Hb at 1; rewrite of_count_add; ring).
    reflexivity.
Qed.

Lemma simpson_f_adjacent_witness :
  ((1 <= 1)%nat /\ (1 <= 2)%nat
   /\ (lit 2 - lit 1) / of_count 1 = (lit 4 - lit 2) / of_count 2)
  /\ simpson_f (fun t => t * t * t * t) (lit 1) (lit 2) 1
     + simpson_f (fun t => t * t * t * t) (lit 2) (lit 4) 2
     = simpson_f (fun t => t * t * t * t) (lit 1) (lit 4) (1 + 2).
Proof.
  assert (H1 : (1 <= 1)%nat) by lia.
  assert (H2 : (1 <= 2)%nat) by lia.
  assert (H3 : (lit 2 - lit 1) / of_count 1 = (lit 4 - lit 2) / of_count 2)
    by (apply Qc_is_canon; vm_compute; reflexivity).
  split; [auto|].
  exact (simpson_f_adjacent (fun t => t * t * t * t) (lit 1) (lit 2) (lit 4)
           1 2 H1 H2 H3).
Defined.

(* ================================================================= *)
(** ** Containers of different sizes *)

Lemma small_xy (x y : list T) :
  (length x < 2)%nat -> simpson_xy x y = OutOfRange.
Proof.
  intros Hn. destruct x as [|x0 [|x1 x]]; [| |simpl in Hn; lia];
    reflexivity.
Qed.

Lemma read_firstn (id : container) (c : list T) (n j : nat) :
  (j < n)%nat -> (n <= length c)%nat ->
  read id (firstn n c) (Z.of_nat j) = read id c (Z.of_nat j).
Proof.
  intros Hj Hn. unfold read, size.
  rewrite length_firstn, Nat.min_l by exact Hn.
  rewrite Nat2Z.id, nth_error_firstn.
  destruct (Nat.ltb_spec j n) as [_|Hge]; [|lia].
  destruct (Z.ltb_spec (Z.of_nat j) (Z.of_nat n)) as [_|Hge]; [|lia].
  destruct (Z.ltb_spec (Z.of_nat j) (Z.of_nat (length c))) as [_|Hge];
    [reflexivity | lia].
Qed.

Lemma bind_ext {A B} (m : outcome A) (k k' : A -> outcome B) :
  (forall a, k a = k' a) -> bind m k = bind m k'.
Proof. intros H. destruct m; simpl; [rewrite H|..]; reflexivity. Qed.

Lemma triple_xy_firstn (x y : list T) (i : nat) (sum : T) :
  SizeT.fits (length x) -> (length x <= length y)%nat ->
  (i + 2 < length x)%nat ->
  triple_xy x (firstn (length x) y) (Z.of_nat i) sum
  = triple_xy x y (Z.of_nat i) sum.
Proof.
  intros Hfit Hle Hi. unfold triple_xy.
  change 1%Z with (Z.of_nat 1). change 2%Z with (Z.of_nat 2).
  rewrite !add_no_wrap by (eapply fits_le; [|exact Hfit]; lia).
  rewrite !read_firstn by lia. reflexivity.
Qed.

Lemma tail_xy_firstn (x y : list T) (sum : T) :
  SizeT.fits (length x) -> (length x <= length y)%nat ->
  (3 <= length x)%nat ->
  tail_xy x (firstn (length x) y) sum = tail_xy x y sum.
Proof.
  intros Hfit Hle Hn. unfold tail_xy, size.
  change 1%Z with (Z.of_nat 1). change 2%Z with (Z.of_nat 2).
  change 3%Z with (Z.of_nat 3).
  rewrite sub_no_wrap by assumption.
  rewrite !add_no_wrap by (eapply fits_le; [|exact Hfit]; lia).
  cbv zeta. rewrite !read_firstn by lia. reflexivity.
Qed.

Lemma loop_xy_firstn (x y : list T) :
  SizeT.fits (length x) -> (length x <= length y)%nat ->
  (2 <= length x)%nat ->
  forall (fuel i : nat) (sum : T),
    loop_xy x (firstn (length x) y) fuel (Z.of_nat i) sum
    = loop_xy x y fuel (Z.of_nat i) sum.
Proof.
  intros Hfit Hle Hn fuel.
  induction fuel as [|fuel IH]; intros i sum; [reflexivity|].
  cbn [loop_xy]. unfold size.
  change 2%Z with (Z.of_nat 2). rewrite sub_no_wrap by assumption.
  destruct (Z.ltb_spec (Z.of_nat i) (Z.of_nat (length x - 2)))
    as [Hlt|Hge]; [|reflexivity].
  rewrite triple_xy_firstn by (assumption || lia).
  rewrite add_no_wrap by (eapply fits_le; [|exact Hfit]; lia).
  apply bind_ext. intros sum'. apply IH.
Qed.

(** X10.  [operator()(x, y)] reads [y] below [x.size()] only: ordinates beyond
    that change neither the result nor the accesses. *)
Theorem simpson_xy_extra_ordinates (x y : list T) :
  SizeT.fits (length x) ->
  (length x <= length y)%nat ->
  simpson_xy x y = simpson_xy x (firstn (length x) y).
Proof.
  intros Hfit Hle.
  destruct (Nat.le_gt_cases 2 (length x)) as [Hn|Hn].
  - unfold simpson_xy.
    change (loop_xy x (firstn (length x) y) (S (length x)) 0%Z 0)
      with (loop_xy x (firstn (length x) y) (S (length x)) (Z.of_nat 0) 0).
    change (loop_xy x y (S (length x)) 0%Z 0)
      with (loop_xy x y (S (length x)) (Z.of_nat 0) 0).
    rewrite (loop_xy_firstn x y Hfit Hle Hn (S (length x)) 0 0).
    destruct (loop_xy x y (S (length x)) (Z.of_nat 0) 0) as [sum tr| |];
      cbn [bind]; [|reflexivity|reflexivity].
    destruct (size x mod 2 =? 0)%Z; [|reflexivity].
    unfold size. rewrite size_test.
    destruct (Nat.ltb_spec 2 (length x)) as [H3|_]; [|reflexivity].
    rewrite tail_xy_firstn by (assumption || lia). reflexivity.
  - rewrite !small_xy by exact Hn. reflexivity.
Qed.

Lemma simpson_xy_extra_ordinates_witness :
  (SizeT.fits (length (samples [0; 1; 3; 4]%Z))
   /\ (length (samples [0; 1; 3; 4]%Z)
       <= length (samples [0; 1; 9; 16; 5; 5]%Z))%nat)
  /\ simpson_xy (samples [0; 1; 3; 4]%Z) (samples [0; 1; 9; 16; 5; 5]%Z)
     = simpson_xy (samples [0; 1; 3; 4]%Z)
         (firstn (length (samples [0; 1; 3; 4]%Z))
            (samples [0; 1; 9; 16; 5; 5]%Z)).
Proof.
  assert (H1 : SizeT.fits (length (samples [0; 1; 3; 4]%Z)))
    by (vm_compute; reflexivity).
  assert (H2 : (length (samples [0; 1; 3; 4]%Z)
                <= length (samples [0; 1; 9; 16; 5; 5]%Z))%nat)
    by (simpl; lia).
  split; [auto|].
  exact (simpson_xy_extra_ordinates (samples [0; 1; 3; 4]%Z)
           (samples [0; 1; 9; 16; 5; 5]%Z) H1 H2).
Defined.











(* ================================================================= *)
(** ** Moving the abscissas *)

Lemma shifted_length (s : T) (x : list T) : length (shifted s x) = length x.
Proof. apply length_map. Qed.

Lemma at_shifted (s : T) (x : list T) (i : nat) :
  (i < length x)%nat -> at_ (shifted s x) i = at_ x i + s.
Proof.
  intros Hi. unfold at_, shifted.
  rewrite (nth_indep _ 0 (0 + s)) by (rewrite length_map; exact Hi).
  apply (map_nth (fun v => v + s)).
Qed.

Lemma spec_triple_shifted (s : T) (x y : list T) (i : nat) :
  (i + 2 < length x)%nat ->
  spec_triple_xy (shifted s x) y i = spec_triple_xy x y i.
Proof.
  intros Hi. unfold spec_triple_xy. rewrite !at_shifted by lia.
  replace ((at_ x i + s + (at_ x (i + 2) + s)) / lit 2)
    with ((at_ x i + at_ x (i + 2)) / lit 2 + s)
    by (literals; field; nonzero).
  rewrite lagrange3_shift.
  replace (at_ x (i + 2) + s - (at_ x i + s))
    with (at_ x (i + 2) - at_ x i) by ring.
  reflexivity.
Qed.

Lemma spec_tail_shifted (s : T) (x y : list T) :
  (3 <= length x)%nat ->
  spec_tail_xy (shifted s x) y (length x) = spec_tail_xy x y (length x).
Proof.
  intros Hn. unfold spec_tail_xy. rewrite !at_shifted by lia.
  replace ((at_ x (length x - 2) + s + (at_ x (length x - 1) + s)) / lit 2)
    with ((at_ x (length x - 2) + at_ x (length x - 1)) / lit 2 + s)
    by (literals; field; nonzero).
  rewrite lagrange3_shift.
  replace (at_ x (length x - 1) + s - (at_ x (length x - 2) + s))
    with (at_ x (length x - 1) - at_ x (length x - 2)) by ring.
  reflexivity.
Qed.

(* ================================================================= *)
(** ** Strictly monotonic abscissas stay so when moved or reversed *)

Lemma lt_ltb (a b : T) : a < b -> ltb a b = true.
Proof.
  intros H. unfold ltb. rewrite (proj1 (Qclt_alt a b) H). reflexivity.
Qed.

Lemma lt_moved (a b s : T) : a < b -> a + s < b + s.
Proof.
  intros H. apply Qclt_minus_iff. apply Qclt_minus_iff in H.
  replace (b + s + - (a + s)) with (b + - a) by ring. exact H.
Qed.

Lemma chain_intro (r : T -> T -> bool) (l : list T) :
  (forall i, (i + 1 < length l)%nat -> r (at_ l i) (at_ l (i + 1)) = true) ->
  chain r l = true.
Proof.
  induction l as [|a l IH]; intros H; [reflexivity|].
  destruct l as [|b l]; [reflexivity|].
  cbn [chain]. apply andb_true_intro. split.
  - apply (H 0%nat). simpl. lia.
  - apply IH. intros i Hi.
    apply (H (S i)). simpl in Hi |- *. lia.
Qed.

Lemma strictly_monotonic_shifted (s : T) (x : list T) :
  strictly_monotonic x = true -> strictly_monotonic (shifted s x) = true.
Proof.
  unfold strictly_monotonic. intros H.
  apply orb_prop in H as [H|H]; apply orb_true_intro; [left|right];
    apply chain_intro; intros i Hi; rewrite shifted_length in Hi;
    rewrite !at_shifted by lia;
    assert (Hadj := chain_adjacent _ x i H Hi); cbv beta in Hadj |- *;
    apply lt_ltb, lt_moved, ltb_lt; exact Hadj.
Qed.

(** X12.  [operator()(x, y)] uses differences of abscissas only: for
    strictly monotonic abscissas, adding the same [s] to every abscissa
    (which keeps them strictly monotonic) leaves the result unchanged. *)
Theorem simpson_xy_shifted (s : T) (x y : list T) :
  length x = length y ->
  (3 <= length x)%nat ->
  SizeT.fits (length x) ->
  strictly_monotonic x = true ->
  strictly_monotonic (shifted s x) = true
  /\ exists v,
       value (simpson_xy x y) = Some v
       /\ value (simpson_xy (shifted s x) y) = Some v.
Proof.
  intros Hlen Hn Hfit Hmono.
  split; [apply strictly_monotonic_shifted; exact Hmono|].
  exists (spec_simpson_xy x y). split.
  - apply simpson_xy_value; assumption.
  - rewrite simpson_xy_value by (rewrite shifted_length; assumption).
    f_equal. unfold spec_simpson_xy. rewrite shifted_length. cbv zeta.
    rewrite (sum_over_ext_in _ _ (spec_triple_xy x y))
      by (intros i Hi; apply spec_triple_shifted, triple_starts_bound;
          exact Hi).
    destruct (Nat.even (length x) && (2 <? length x)%nat); [|reflexivity].
    rewrite spec_tail_shifted by exact Hn. reflexivity.
Qed.

Lemma simpson_xy_shifted_witness :
  (length (samples [0; 1; 3; 4]%Z) = length (samples [2; 0; 5; 1]%Z)
   /\ (3 <= length (samples [0; 1; 3; 4]%Z))%nat
   /\ SizeT.fits (length (samples [0; 1; 3; 4]%Z))
   /\ strictly_monotonic (samples [0; 1; 3; 4]%Z) = true)
  /\ strictly_monotonic (shifted (lit 10) (samples [0; 1; 3; 4]%Z)) = true
  /\ exists v,
       value (simpson_xy (samples [0; 1; 3; 4]%Z) (samples [2; 0; 5; 1]%Z))
       = Some v
       /\ value (simpson_xy (shifted (lit 10) (samples [0; 1; 3; 4]%Z))
                   (samples [2; 0; 5; 1]%Z)) = Some v.
Proof.
  assert (H1 : length (samples [0; 1; 3; 4]%Z)
               = length (samples [2; 0; 5; 1]%Z)) by reflexivity.
  assert (H2 : (3 <= length (samples [0; 1; 3; 4]%Z))%nat) by (simpl; lia).
  assert (H3 : SizeT.fits (length (samples [0; 1; 3; 4]%Z)))
    by (vm_compute; reflexivity).
  assert (H4 : strictly_monotonic (samples [0; 1; 3; 4]%Z) = true)
    by (vm_compute; reflexivity).
  split; [auto|].
  exact (simpson_xy_shifted (lit 10) (samples [0; 1; 3; 4]%Z)
           (samples [2; 0; 5; 1]%Z) H1 H2 H3 H4).
Defined.

(* ================================================================= *)
(** ** The step of Operation D is a factor *)

(** X13.  For a step [dx] that is not zero, [operator()(y, dx)] returns [dx]
    times what [operator()(y)] returns with the default step 1: the
    weights of the tail block do not depend on the step. *)
Theorem simpson_y_step_factor (y : list T) (dx : T) :
  (3 <= length y)%nat ->
  SizeT.fits (length y) ->
  dx <> 0 ->
  exists v,
    value (simpson_y_default y) = Some v
    /\ value (simpson_y y dx) = Some (dx * v).
Proof.
  intros Hn Hfit Hdx. exists (spec_simpson_y y 1). split.
  - apply simpson_y_value; assumption.
  - rewrite simpson_y_value by assumption. f_equal.
    unfold spec_simpson_y, spec_tail_y. cbv zeta.
    assert (H1 : (1 : T) <> 0) by (rewrite <- lit_1; apply lit_nonzero;
                                   discriminate).
    rewrite !lagrange3_tail by assumption.
    destruct (Nat.even (length y)); all_literals; field; nonzero.
Qed.

Lemma simpson_y_step_factor_witness :
  ((3 <= length (samples [0; 1; 4; 9]%Z))%nat
   /\ SizeT.fits (length (samples [0; 1; 4; 9]%Z))
   /\ lit 3 <> 0)
  /\ exists v,
       value (simpson_y_default (samples [0; 1; 4; 9]%Z)) = Some v
       /\ value (simpson_y (samples [0; 1; 4; 9]%Z) (lit 3))
          = Some (lit 3 * v).
Proof.
  assert (H1 : (3 <= length (samples [0; 1; 4; 9]%Z))%nat) by (simpl; lia).
  assert (H2 : SizeT.fits (length (samples [0; 1; 4; 9]%Z)))
    by (vm_compute; reflexivity).
  assert (H3 : lit 3 <> 0) by (vm_compute; discriminate).
  split; [auto|].
  exact (simpson_y_step_factor (samples [0; 1; 4; 9]%Z) (lit 3) H1 H2 H3).
Defined.

(* ================================================================= *)
(** ** Reading the samples backwards *)

Lemma at_rev (c : list T) (i : nat) :
  (i < length c)%nat -> at_ (rev c) i = at_ c (length c - 1 - i).
Proof.
  intros Hi. unfold at_. rewrite rev_nth by exact Hi.
  f_equal. lia.
Qed.

Lemma lagrange3_swap (x0 y0 x1 y1 x2 y2 t : T) :
  lagrange3 x2 y2 x1 y1 x0 y0 t = lagrange3 x0 y0 x1 y1 x2 y2 t.
Proof.
  unfold lagrange3.
  replace ((t - x1) * (t - x0)) with ((t - x0) * (t - x1)) by ring.
  replace ((x2 - x1) * (x2 - x0)) with ((x2 - x0) * (x2 - x1)) by ring.
  replace ((t - x2) * (t - x0)) with ((t - x0) * (t - x2)) by ring.
  replace ((x1 - x2) * (x1 - x0)) with ((x1 - x0) * (x1 - x2)) by ring.
  replace ((t - x2) * (t - x1)) with ((t - x1) * (t - x2)) by ring.
  replace ((x0 - x2) * (x0 - x1)) with ((x0 - x1) * (x0 - x2)) by ring.
  ring.
Qed.

Lemma sum_over_opp (l : list nat) (g : nat -> T) :
  sum_over l (fun i => - g i) = - sum_over l g.
Proof.
  induction l as [|i l IH]; [simpl; ring|].
  rewrite !sum_over_cons, IH. ring.
Qed.

Lemma spec_triple_rev (x y : list T) (i : nat) :
  length x = length y -> (i + 2 < length x)%nat ->
  spec_triple_xy (rev x) (rev y) i
  = - spec_triple_xy x y (length x - 3 - i).
Proof.
  intros Hlen Hi. unfold spec_triple_xy.
  rewrite !at_rev by lia. rewrite <- Hlen.
  replace (length x - 1 - i)%nat with (length x - 3 - i + 2)%nat by lia.
  replace (length x - 1 - (i + 1))%nat with (length x - 3 - i + 1)%nat by lia.
  replace (length x - 1 - (i + 2))%nat with (length x - 3 - i)%nat by lia.
  set (k := (length x - 3 - i)%nat).
  rewrite lagrange3_swap.
  replace ((at_ x (k + 2) + at_ x k) / lit 2)
    with ((at_ x k + at_ x (k + 2)) / lit 2) by (f_equal; ring).
  unfold Qcdiv. ring.
Qed.

Lemma strictly_monotonic_rev (x : list T) :
  strictly_monotonic x = true -> strictly_monotonic (rev x) = true.
Proof.
  unfold strictly_monotonic. intros H.
  apply orb_prop in H as [H|H]; apply orb_true_intro; [right|left];
    apply chain_intro; intros i Hi; rewrite length_rev in Hi;
    rewrite !at_rev by lia;
    assert (Hadj := chain_adjacent _ x (length x - 1 - (i + 1)) H
                      ltac:(lia));
    replace (length x - 1 - (i + 1) + 1)%nat with (length x - 1 - i)%nat
      in Hadj by lia;
    exact Hadj.
Qed.

(** X14.  For an odd number of samples on strictly monotonic abscissas,
    [operator()(x, y)] on the reversed containers (whose abscissas are
    strictly monotonic too) returns the negation of its result on [x]
    and [y]: the triples are the same, with their widths negated.  (For
    an even number the tail block moves to the other end of the data.) *)
Theorem simpson_xy_reversed (x y : list T) :
  length x = length y ->
  (3 <= length x)%nat ->
  SizeT.fits (length x) ->
  Nat.even (length x) = false ->
  strictly_monotonic x = true ->
  strictly_monotonic (rev x) = true
  /\ exists v,
       value (simpson_xy x y) = Some v
       /\ value (simpson_xy (rev x) (rev y)) = Some (- v).
Proof.
  intros Hlen Hn Hfit Hodd Hmono.
  split; [apply strictly_monotonic_rev; exact Hmono|].
  exists (spec_simpson_xy x y). split.
  - apply simpson_xy_value; assumption.
  - rewrite simpson_xy_value by (rewrite ?length_rev; assumption).
    f_equal. unfold spec_simpson_xy, triple_starts.
    rewrite length_rev, Hodd. cbn [andb]. cbv zeta.
    destruct (Nat.Even_or_Odd (length x)) as [Hev|[N HN]].
    { apply Nat.even_spec in Hev. congruence. }
    assert (HN' : (1 <= N)%nat) by lia.
    replace (length x - 2)%nat with (2 * N - 1)%nat by lia.
    rewrite even_indices_double by reflexivity.
    rewrite !sum_over_map.
    rewrite (sum_over_ext_in _ _
               (fun j => - spec_triple_xy x y (0 + 2 * (N - 1 - j))%nat)).
    + rewrite (sum_over_reverse N
                 (fun j => - spec_triple_xy x y (0 + 2 * j)%nat)).
      rewrite sum_over_opp. ring.
    + intros j Hj. apply in_seq in Hj.
      rewrite spec_triple_rev by (assumption || lia).
      f_equal. f_equal. lia.
Qed.

Lemma simpson_xy_reversed_witness :
  (length (samples [0; 1; 3; 4; 9]%Z) = length (samples [2; 0; 5; 1; 1]%Z)
   /\ (3 <= length (samples [0; 1; 3; 4; 9]%Z))%nat
   /\ SizeT.fits (length (samples [0; 1; 3; 4; 9]%Z))
   /\ Nat.even (length (samples [0; 1; 3; 4; 9]%Z)) = false
   /\ strictly_monotonic (samples [0; 1; 3; 4; 9]%Z) = true)
  /\ strictly_monotonic (rev (samples [0; 1; 3; 4; 9]%Z)) = true
  /\ exists v,
       value (simpson_xy (samples [0; 1; 3; 4; 9]%Z)
                (samples [2; 0; 5; 1; 1]%Z)) = Some v
       /\ value (simpson_xy (rev (samples [0; 1; 3; 4; 9]%Z))
                   (rev (samples [2; 0; 5; 1; 1]%Z))) = Some (- v).
Proof.
  assert (H1 : length (samples [0; 1; 3; 4; 9]%Z)
               = length (samples [2; 0; 5; 1; 1]%Z)) by reflexivity.
  assert (H2 : (3 <= length (samples [0; 1; 3; 4; 9]%Z))%nat)
    by (simpl; lia).
  assert (H3 : SizeT.fits (length (samples [0; 1; 3; 4; 9]%Z)))
    by (vm_compute; reflexivity).
  assert (H4 : Nat.even (length (samples [0; 1; 3; 4; 9]%Z)) = false)
    by reflexivity.
  assert (H5 : strictly_monotonic (samples [0; 1; 3; 4; 9]%Z) = true)
    by (vm_compute; reflexivity).
  split; [repeat split; assumption|].
  exact (simpson_xy_reversed (samples [0; 1; 3; 4; 9]%Z)
           (samples [2; 0; 5; 1; 1]%Z) H1 H2 H3 H4 H5).
Defined.

(* ================================================================= *)
(** ** Operation A: the integrand and the bounds *)

Lemma sum_over_linear (c : T) (l : list nat) (u v : nat -> T) :
  sum_over l (fun i => c * u i + v i) = c * sum_over l u + sum_over l v.
Proof.
  induction l as [|i l IH]; [simpl; ring|].
  rewrite !sum_over_cons, IH. ring.
Qed.

(** X15.  For [N >= 1], [operator()(f, a, b, N)] is linear in the
    callable: on [t -> c f(t) + g(t)] it returns [c] times its result on
    [f] plus its result on [g]. *)
Theorem simpson_f_linear (c : T) (f g : T -> T) (a b : T) (N : nat) :
  (1 <= N)%nat ->
  simpson_f (fun t => c * f t + g t) a b N
  = c * simpson_f f a b N + simpson_f g a b N.
Proof.
  intros _. rewrite !simpson_f_sum. unfold spec_simpson_f. cbv zeta.
  set (dx := (b - a) / of_count N).
  rewrite (sum_over_ext_in _ _
             (fun i => c * (f (a + of_count i * dx)
                            + lit 4 * f (a + of_count i * dx + dx / lit 2)
                            + f (a + of_count i * dx + dx))
                       + (g (a + of_count i * dx)
                          + lit 4 * g (a + of_count i * dx + dx / lit 2)
                          + g (a + of_count i * dx + dx))))
    by (intros i _; ring).
  rewrite sum_over_linear. ring.
Qed.

Lemma simpson_f_linear_witness :
  (1 <= 2)%nat
  /\ simpson_f (fun t => lit 3 * (t * t * t * t) + (t + lit 1))
       (lit 1) (lit 4) 2
     = lit 3 * simpson_f (fun t => t * t * t * t) (lit 1) (lit 4) 2
       + simpson_f (fun t => t + lit 1) (lit 1) (lit 4) 2.
Proof.
  assert (H : (1 <= 2)%nat) by lia.
  split; [exact H|].
  exact (simpson_f_linear (lit 3) (fun t => t * t * t * t)
           (fun t => t + lit 1) (lit 1) (lit 4) 2 H).
Defined.

(** X16.  With equal bounds the sub-intervals have width zero and
    [operator()(f, a, a, N)] returns 0, whatever [f] returns. *)
Theorem simpson_f_zero_width (f : T -> T) (a : T) (N : nat) :
  (1 <= N)%nat -> simpson_f f a a N = 0.
Proof.
  intros _. unfold simpson_f. cbv zeta.
  replace ((a - a) / of_count N) with 0 by (unfold Qcdiv; ring).
  unfold Qcdiv. ring.
Qed.

Lemma simpson_f_zero_width_witness :
  (1 <= 3)%nat /\ simpson_f (fun t => t * t + lit 7) (lit 2) (lit 2) 3 = 0.
Proof.
  assert (H : (1 <= 3)%nat) by lia.
  split; [exact H|].
  exact (simpson_f_zero_width (fun t => t * t + lit 7) (lit 2) 3 H).
Defined.
